(** * Git_timeline: the commit-memory pipeline of [logic.py]

    A shallow embedding of [logic.py] (repository accessor, commit
    classifier, file-purpose inferencer, memory extractor, commit summarizer
    and narrative requester) together with the two slices of
    [streamlit_app.py], and the properties of the specification stated over it.

    Conventions.
    - A Python [str] is a [string]: one [ascii] per character, read as the
      code point of the same number, so the model is exact on every [str]
      whose code points are below 256.
    - A Python [int] is a [Z].
    - A Python list is a [list]; a [dict] whose iteration order is observed
      is an association list in insertion order.
    - A function that can raise returns a [result]; a function with effects
      threads the state it touches and logs the calls it makes. *)

From Stdlib Require Import ZArith Bool List String Ascii DecimalString Lia.
Import ListNotations.

Open Scope string_scope.
Open Scope Z_scope.

(* ================================================================= *)
(** ** Python primitives *)

Module Py.

(** *** Characters *)

Definition code (c : ascii) : nat := nat_of_ascii c.

Definition in_range (lo hi n : nat) : bool :=
  (Nat.leb lo n && Nat.leb n hi)%bool.

(** [str.isupper]-letters below 256 that [str.lower] moves: A-Z and the
    Latin-1 capitals U+00C0..U+00DE without the multiplication sign. *)
Definition has_lower (n : nat) : bool :=
  (in_range 65 90 n || (in_range 192 222 n && negb (Nat.eqb n 215)))%bool.

Definition lower_char (c : ascii) : ascii :=
  if has_lower (code c) then ascii_of_nat (code c + 32) else c.

(** [str.isspace] below 256: TAB LF VT FF CR, FS GS RS US, SPACE, NEL, NBSP. *)
Definition is_space (c : ascii) : bool :=
  let n := code c in
  (in_range 9 13 n || in_range 28 32 n || Nat.eqb n 133 || Nat.eqb n 160)%bool.

(** Line boundaries of [str.splitlines] below 256: LF VT FF CR, FS GS RS, NEL. *)
Definition is_linebreak (c : ascii) : bool :=
  let n := code c in
  (in_range 10 13 n || in_range 28 30 n || Nat.eqb n 133)%bool.

Definition LF : ascii := ascii_of_nat 10.
Definition CR : ascii := ascii_of_nat 13.
Definition NL : string := String LF "".

(** *** Strings *)

(** [s.lower()] *)
Fixpoint lower (s : string) : string :=
  match s with
  | "" => ""
  | String c t => String (lower_char c) (lower t)
  end.

(** [s.startswith(p)] *)
Fixpoint startswith (s p : string) {struct p} : bool :=
  match p, s with
  | "", _ => true
  | String _ _, "" => false
  | String a p', String b s' => (Ascii.eqb a b && startswith s' p')%bool
  end.

(** [sub in s] *)
Fixpoint contains (sub s : string) : bool :=
  (startswith s sub ||
   match s with
   | "" => false
   | String _ t => contains sub t
   end)%bool.

(** [s.endswith(suf)] *)
Fixpoint endswith (s suf : string) : bool :=
  (String.eqb s suf ||
   match s with
   | "" => false
   | String _ t => endswith t suf
   end)%bool.

(** [s.endswith((suf1, suf2, ...))] *)
Definition endswith_any (s : string) (sufs : list string) : bool :=
  existsb (endswith s) sufs.

(** [any(k in s for k in ks)] *)
Definition any_in (ks : list string) (s : string) : bool :=
  existsb (fun k => contains k s) ks.

(** [s.replace(old, new)] for a non-empty [old]: occurrences are found
    left to right and do not overlap.  [skip] counts the characters of a
    match that are still to be dropped. *)
Fixpoint replace_from (skip : nat) (old new s : string) : string :=
  match s with
  | "" => ""
  | String c t =>
      match skip with
      | S k => replace_from k old new t
      | O =>
          if startswith s old
          then new ++ replace_from (String.length old - 1) old new t
          else String c (replace_from O old new t)
      end
  end.

Definition replace (s old new : string) : string :=
  replace_from O old new s.

(** [s.lstrip()], [s.rstrip()], [s.strip()] *)
Fixpoint lstrip (s : string) : string :=
  match s with
  | "" => ""
  | String c t => if is_space c then lstrip t else s
  end.

Fixpoint rstrip (s : string) : string :=
  match s with
  | "" => ""
  | String c t =>
      match rstrip t with
      | "" => if is_space c then "" else String c ""
      | t' => String c t'
      end
  end.

Definition strip (s : string) : string := rstrip (lstrip s).

(** [s.splitlines()]: [cur] is the line being read, [after_cr] tells that
    the previous character was a CR, so that a LF now belongs to the same
    boundary. *)
Fixpoint splitlines_from (cur : string) (after_cr : bool) (s : string)
  : list string :=
  match s with
  | "" => if String.eqb cur "" then [] else [cur]
  | String c t =>
      if (after_cr && Ascii.eqb c LF)%bool then splitlines_from cur false t
      else if is_linebreak c
           then cur :: splitlines_from "" (Ascii.eqb c CR) t
           else splitlines_from (cur ++ String c "") false t
  end.

Definition splitlines (s : string) : list string :=
  splitlines_from "" false s.

(** [sep.join(parts)] *)
Fixpoint join (sep : string) (parts : list string) : string :=
  match parts with
  | [] => ""
  | [p] => p
  | p :: rest => p ++ sep ++ join sep rest
  end.

(** [str(n)], which is also how an f-string renders an [int]. *)
Definition str (n : Z) : string := NilZero.string_of_int (Z.to_int n).

(** *** Slices *)

(** The position a slice bound [i] denotes in a sequence of length [len]:
    a negative bound counts from the end, and both are clamped. *)
Definition bound (len : nat) (i : Z) : nat :=
  if i <? 0 then Z.to_nat (Z.max 0 (Z.of_nat len + i))
  else Nat.min (Z.to_nat i) len.

(** [l[i:]] and [l[:i]] on lists *)
Definition slice_from {A} (l : list A) (i : Z) : list A :=
  skipn (bound (List.length l) i) l.

Definition slice_to {A} (l : list A) (i : Z) : list A :=
  firstn (bound (List.length l) i) l.

(** [s[:i]] on strings *)
Fixpoint take (n : nat) (s : string) : string :=
  match n, s with
  | O, _ => ""
  | S _, "" => ""
  | S k, String c t => String c (take k t)
  end.

Definition str_slice_to (s : string) (i : Z) : string :=
  take (bound (String.length s) i) s.

(** [len(s)] and [len(l)] *)
Definition len_str (s : string) : Z := Z.of_nat (String.length s).
Definition len {A} (l : list A) : Z := Z.of_nat (List.length l).

(** [enumerate(l, start)] *)
Fixpoint enumerate {A} (l : list A) (start : Z) : list (Z * A) :=
  match l with
  | [] => []
  | x :: t => (start, x) :: enumerate t (start + 1)
  end.

(** *** [os.path] (POSIX) *)

Definition SEP : ascii := "/"%char.

(** [os.path.basename(p)]: what follows the last slash. *)
Fixpoint basename_from (cur : string) (p : string) : string :=
  match p with
  | "" => cur
  | String c t =>
      if Ascii.eqb c SEP then basename_from "" t
      else basename_from (cur ++ String c "") t
  end.

Definition basename (p : string) : string := basename_from "" p.

(** [os.path.join(a, b)] *)
Definition path_join (a b : string) : string :=
  if startswith b "/" then b
  else if (String.eqb a "" || endswith a "/")%bool then a ++ b
  else a ++ "/" ++ b.

(** *** Exceptions *)

Inductive exn : Type :=
| IndexError
| RuntimeError (msg : string)
| ValueError
| AttributeError
| GitCommandError
| APIError (msg : string).

Inductive result (A : Type) : Type :=
| Ok (a : A)
| Raise (e : exn).
Arguments Ok {A} a.
Arguments Raise {A} e.

Definition bind {A B} (m : result A) (k : A -> result B) : result B :=
  match m with
  | Ok a => k a
  | Raise e => Raise e
  end.

(** A [for] loop whose body can raise, collecting what each turn appends. *)
Fixpoint for_each {A B} (body : A -> result B) (l : list A) : result (list B) :=
  match l with
  | [] => Ok []
  | x :: t =>
      bind (body x) (fun y =>
      bind (for_each body t) (fun ys => Ok (y :: ys)))
  end.

(** [l[0]] *)
Definition first {A} (l : list A) : result A :=
  match l with
  | [] => Raise IndexError
  | x :: _ => Ok x
  end.

End Py.

Import Py.

Notation "x <- m ;; k" := (bind m (fun x => k))
  (at level 61, m at next level, right associativity).

(* ================================================================= *)
(** ** Library calls the program makes *)

(** [datetime.utcfromtimestamp(ts).strftime("%Y-%m-%d")]. *)
Module Datetime.

Definition MINYEAR : Z := 1.
Definition MAXYEAR : Z := 9999.

(** Proleptic Gregorian date of the day [days] days after 1970-01-01. *)
Definition civil_from_days (days : Z) : Z * Z * Z :=
  let z := days + 719468 in
  let era := z / 146097 in
  let doe := z - era * 146097 in
  let yoe := (doe - doe / 1460 + doe / 36524 - doe / 146096) / 365 in
  let doy := doe - (365 * yoe + yoe / 4 - yoe / 100) in
  let mp := (5 * doy + 2) / 153 in
  let d := doy - (153 * mp + 2) / 5 + 1 in
  let m := if mp <? 10 then mp + 3 else mp - 9 in
  let y := yoe + era * 400 + (if m <=? 2 then 1 else 0) in
  (y, m, d).

(** A non-negative number in at least [width] digits, zero-padded. *)
Fixpoint zeros (n : nat) : string :=
  match n with
  | O => ""
  | S k => String "0" (zeros k)
  end.

Definition pad (width : nat) (n : Z) : string :=
  let s := str n in
  zeros (width - String.length s) ++ s.

(** [utcfromtimestamp] raises when the year leaves [MINYEAR..MAXYEAR]
    ([ValueError] here; the C library reports a timestamp it cannot hold as
    [OverflowError] or [OSError]); [%Y] is written in four digits, [%m] and
    [%d] in two, which is what every C library writes from year 1000 on. *)
Definition utc_date (ts : Z) : result string :=
  let '(y, m, d) := civil_from_days (ts / 86400) in
  if ((y <? MINYEAR) || (MAXYEAR <? y))%bool then Raise ValueError
  else Ok (pad 4 y ++ "-" ++ pad 2 m ++ "-" ++ pad 2 d).

End Datetime.

(** What GitPython exposes of a repository. *)
Module Git.

(** A [dict] from [str] to [int], such as [commit.stats.total] and each
    value of [commit.stats.files]. *)
Definition int_dict : Type := list (string * Z).

(** [d.get(k, default)] *)
Fixpoint get (d : int_dict) (k : string) (default : Z) : Z :=
  match d with
  | [] => default
  | (k', v) :: rest => if String.eqb k' k then v else get rest k default
  end.

(** A commit object: [c.author] is [None] or carries a [name]. *)
Record commit : Type := Commit {
  author : option string;
  committed_date : Z;
  message : string;
  stats_total : int_dict;
  stats_files : list (string * int_dict)
}.

(** A repository handle: the commits reachable from HEAD, newest first.
    The log is empty in a repository that has no commit yet, where HEAD
    names no revision. *)
Record repo : Type := Repo {
  head_log : list commit
}.

(** What [repo.iter_commits("HEAD", max_count=n)] yields once HEAD names a
    revision: the [n] newest commits, all of them for a negative [n] (git's
    [--max-count]). *)
Definition iter_commits (r : repo) (max_count : Z) : list commit :=
  if max_count <? 0 then head_log r
  else firstn (Z.to_nat max_count) (head_log r).

(** [list(repo.iter_commits("HEAD", max_count=n))]: in a repository without
    any commit [git rev-list] fails on the revision HEAD and the call raises
    [GitCommandError]. *)
Definition list_iter_commits (r : repo) (max_count : Z)
  : result (list commit) :=
  match head_log r with
  | [] => Raise GitCommandError
  | _ :: _ => Ok (iter_commits r max_count)
  end.

End Git.

(* ================================================================= *)
(** ** logic.py *)

(** *** Repository accessor *)

(** The accessor's effects on the outside world, in the order it makes them. *)
Inductive repo_call : Type :=
| Makedirs (path : string)
| CloneFrom (url local_path : string)
| OpenRepo (path : string).

(** The file system as the set of paths that exist, each under one
    spelling: two spellings of one path ("d" and "d/", "d/x/..") are two
    paths here. *)
Definition filesystem : Type := list string.

Definition path_exists (fs : filesystem) (p : string) : bool :=
  existsb (String.eqb p) fs.

(** [os.makedirs(p, exist_ok=True)] *)
Definition makedirs (fs : filesystem) (p : string) : filesystem :=
  if path_exists fs p then fs else p :: fs.

(** The cache entry of a remote location inside [temp_dir]. *)
Definition local_path_of (temp_dir repo_path : string) : string :=
  path_join temp_dir (replace (basename repo_path) ".git" "").

(** [get_repo(repo_path)], with [tmp] for [tempfile.gettempdir()], in a run
    where [os.makedirs], [Repo.clone_from] and [Repo] succeed: the calls
    made, the path whose repository is returned, and the file system left. *)
Definition get_repo (tmp : string) (fs : filesystem) (repo_path : string)
  : list repo_call * string * filesystem :=
  if startswith repo_path "http" then
    let temp_dir := path_join tmp "repo_cache" in
    let fs1 := makedirs fs temp_dir in
    let local_path := local_path_of temp_dir repo_path in
    if negb (path_exists fs1 local_path) then
      ([Makedirs temp_dir; CloneFrom repo_path local_path; OpenRepo local_path],
       local_path, local_path :: fs1)
    else
      ([Makedirs temp_dir; OpenRepo local_path], local_path, fs1)
  else
    ([OpenRepo repo_path], repo_path, fs).

(** *** Commit classifier *)

Definition classify_importance (message : string) : string :=
  let msg := lower message in
  if any_in ["init"; "setup"; "initial"] msg then "Setup"
  else if any_in ["add"; "feature"; "implement"] msg then "Feature"
  else if any_in ["fix"; "bug"; "issue"] msg then "Fix"
  else if any_in ["refactor"; "cleanup"] msg then "Refactor"
  else if contains "test" msg then "Test"
  else "Other".

(** *** File purpose inferencer *)

Definition infer_file_purpose (filename : string) : string :=
  let fname := lower filename in
  if endswith fname ".py" then "Python source code"
  else if endswith fname ".md" then "Documentation"
  else if endswith fname ".gitignore" then "Git ignore rules"
  else if endswith fname ".json" then "Configuration/data file"
  else if endswith_any fname [".yml"; ".yaml"] then "Configuration file"
  else "Other".

(** *** Memory extractor *)

(** An element of [key_files]. *)
Module KeyFile.
Record t : Type := Make {
  name : string;
  purpose : string;
  insertions : Z;
  deletions : Z
}.
End KeyFile.

(** An element of the commit memory. *)
Module Memory.
Record t : Type := Make {
  commit_number : Z;
  author : string;
  date : string;
  message : string;
  type : string;
  summary : string;
  key_files : list KeyFile.t;
  insertions : Z;
  deletions : Z;
  files_changed_count : Z
}.
End Memory.

(** The inner loop: one entry per item of [commit.stats.files], up to
    [top_files]. *)
Definition important_files (c : Git.commit) (top_files : Z) : list KeyFile.t :=
  map (fun '(f, s) =>
         KeyFile.Make f (infer_file_purpose f)
                      (Git.get s "insertions" 0) (Git.get s "deletions" 0))
      (slice_to (Git.stats_files c) top_files).

(** The body of the outer loop: the entry appended for commit [c] at
    position [idx].  The record's fields are computed in the order the
    dictionary display writes them. *)
Definition memory_entry (top_files : Z) (idx : Z) (c : Git.commit)
  : result Memory.t :=
  let stats := Git.stats_total c in
  let num_files := len (Git.stats_files c) in
  let files := important_files c top_files in
  let who := match Git.author c with Some n => n | None => "Unknown" end in
  day <- Datetime.utc_date (Git.committed_date c) ;;
  headline <- first (splitlines (strip (Git.message c))) ;;
  Ok (Memory.Make idx who day (strip (Git.message c))
                  (classify_importance (Git.message c)) headline files
                  (Git.get stats "insertions" 0) (Git.get stats "deletions" 0)
                  num_files).

(** [extract_commit_memory] once [repo = get_repo(repo_path)] is opened. *)
Definition extract_commit_memory (repo : Git.repo) (max_commits top_files : Z)
  : result (list Memory.t) :=
  listing <- Git.list_iter_commits repo max_commits ;;
  let commits := rev listing in
  for_each (fun '(idx, commit) => memory_entry top_files idx commit)
           (enumerate commits 1).

(** *** Commit summarizer *)

(** The comma-joined description of the key files. *)
Definition files_info (c : Memory.t) : string :=
  join ", "
    (map (fun f =>
            KeyFile.name f ++ " (" ++ KeyFile.purpose f ++ "): +" ++
            str (KeyFile.insertions f) ++ "/-" ++ str (KeyFile.deletions f))
         (Memory.key_files c)).

(** The one-line text both the summarizer and the narrator write for a
    commit. *)
Definition commit_text (c : Memory.t) : string :=
  "Commit " ++ str (Memory.commit_number c) ++ " by " ++ Memory.author c ++
  " on " ++ Memory.date c ++ " " ++
  "[" ++ Memory.type c ++ "]: " ++ Memory.summary c ++ ". " ++
  "Files changed (" ++ str (Memory.files_changed_count c) ++ "): " ++
  files_info c ++ ". " ++
  "Insertions: " ++ str (Memory.insertions c) ++
  ", Deletions: " ++ str (Memory.deletions c) ++ ".".

Definition TRUNCATION_MARKER : string := " [...]".

(** The body of the summarizer's loop. *)
Definition summarize_one (max_tokens_per_commit : Z) (c : Memory.t) : string :=
  let text := commit_text c in
  if len_str text >? max_tokens_per_commit
  then str_slice_to text max_tokens_per_commit ++ TRUNCATION_MARKER
  else text.

Definition summarize_commits (memory : list Memory.t)
  (max_tokens_per_commit : Z) : list string :=
  map (summarize_one max_tokens_per_commit) memory.

(** *** Narrative requester *)

(** [memory[-max_recent:]] and [memory[:-max_recent]], as [generate_story]
    and the page of [streamlit_app.py] both compute them. *)
Definition recent_memory (memory : list Memory.t) (max_recent : Z)
  : list Memory.t := slice_from memory (- max_recent).

Definition older_memory (memory : list Memory.t) (max_recent : Z)
  : list Memory.t := slice_to memory (- max_recent).

(** [for x in xs: user_text += f x] *)
Definition concat_lines (xs : list string) : string :=
  fold_left (fun acc x => acc ++ x) xs "".

Definition sys_prompt : string :=
  "You are a narrator. Write the repository's journey one detailed paragraph per commit. " ++
  "Start each paragraph with 'Commit X:'. For each commit, mention key files changed, " ++
  "their purpose/type, insertions/deletions, and overall impact. " ++
  "Keep it concise, engaging, and informative. Do NOT include commit hashes.".

(** The prompt body built from the two partitions. *)
Definition user_text (memory : list Memory.t) (max_recent : Z) : string :=
  let summarized_older :=
    summarize_commits (older_memory memory max_recent) 200 in
  "Repository commit memory:" ++ NL ++
  concat_lines (map (fun c => c ++ NL) summarized_older) ++
  concat_lines (map (fun c => commit_text c ++ NL)
                    (recent_memory memory max_recent)) ++
  NL ++ "Write a narrated story with one paragraph per commit.".

Section Narrator.

(** Python's [float], which the program only passes on. *)
Variable float : Type.

(** The process environment: [os.getenv]. *)
Variable getenv : string -> option string.

(** The client object [OpenAI(api_key=key)]. *)
Record client : Type := OpenAI { api_key : string }.

(** The arguments of [client.chat.completions.create]. *)
Record chat_request : Type := ChatRequest {
  model : string;
  temperature : float;
  messages : list (string * string)
}.

(** The external service, [client.chat.completions.create]: it raises, or
    answers with the [message.content] of each of the response's [choices],
    which is [None] or a [str]. *)
Variable create : client -> chat_request -> result (list (option string)).

(** [resp.choices[0].message.content.strip()] *)
Definition response_text (choices : list (option string)) : result string :=
  choice <- first choices ;;
  match choice with
  | None => Raise AttributeError
  | Some content => Ok (strip content)
  end.

Definition _ensure_openai : result client :=
  match getenv "OPENAI_API_KEY" with
  | None | Some "" =>
      Raise (RuntimeError "Set OPENAI_API_KEY in your environment.")
  | Some key => Ok (OpenAI key)
  end.

(** [generate_story]: what it returns or raises, and the calls it has made
    to the service by then. *)
Definition generate_story (memory : list Memory.t) (temp : float)
  (max_recent : Z) : result string * list chat_request :=
  match _ensure_openai with
  | Raise e => (Raise e, [])
  | Ok cl =>
      let request :=
        ChatRequest "gpt-4o-mini" temp
          [("system", sys_prompt); ("user", user_text memory max_recent)] in
      (resp <- create cl request ;; response_text resp, [request])
  end.

End Narrator.

Arguments api_key : clear implicits.

(* ================================================================= *)
(** ** The specification's vocabulary *)

Module Spec.

(** [sub] occurs somewhere in [s]; [s] starts with [pre]; [s] ends with
    [suf]. *)
Definition Substring (sub s : string) : Prop :=
  exists pre post, s = pre ++ sub ++ post.

Definition Prefix (pre s : string) : Prop := exists post, s = pre ++ post.

Definition Suffix (suf s : string) : Prop := exists pre, s = pre ++ suf.

(** Empty or made of white space only. *)
Fixpoint whitespace_only (s : string) : bool :=
  match s with
  | "" => true
  | String c t => (is_space c && whitespace_only t)%bool
  end.

(** An ordered rule list with a fallback: [a] is selected when it matches
    (or is the fallback) and nothing ranked before it matches. *)
Definition FirstMatch {A : Type} (rank : A -> nat) (fallback : A)
  (Matches : A -> Prop) (a : A) : Prop :=
  (a = fallback \/ Matches a) /\
  forall b, (rank b < rank a)%nat -> ~ Matches b.

(** *** Commit categories, in priority order *)

Inductive category : Type := Setup | Feature | Fix | Refactor | Test | Other.

Definition label (c : category) : string :=
  match c with
  | Setup => "Setup" | Feature => "Feature" | Fix => "Fix"
  | Refactor => "Refactor" | Test => "Test" | Other => "Other"
  end.

Definition keywords (c : category) : list string :=
  match c with
  | Setup => ["init"; "setup"; "initial"]
  | Feature => ["add"; "feature"; "implement"]
  | Fix => ["fix"; "bug"; "issue"]
  | Refactor => ["refactor"; "cleanup"]
  | Test => ["test"]
  | Other => []
  end.

Definition priority (c : category) : nat :=
  match c with
  | Setup => 1 | Feature => 2 | Fix => 3
  | Refactor => 4 | Test => 5 | Other => 6
  end%nat.

(** The lower-cased message contains one of the category's keywords. *)
Definition Mentions (message : string) (c : category) : Prop :=
  exists k, In k (keywords c) /\ Substring k (lower message).

Definition classify (message : string) (c : category) : Prop :=
  FirstMatch priority Other (Mentions message) c.

(** *** File purposes, in priority order *)

Inductive purpose : Type :=
| PythonSource | Documentation | GitIgnore | ConfigData | Config
| OtherPurpose.

Definition purpose_label (p : purpose) : string :=
  match p with
  | PythonSource => "Python source code"
  | Documentation => "Documentation"
  | GitIgnore => "Git ignore rules"
  | ConfigData => "Configuration/data file"
  | Config => "Configuration file"
  | OtherPurpose => "Other"
  end.

Definition suffixes (p : purpose) : list string :=
  match p with
  | PythonSource => [".py"]
  | Documentation => [".md"]
  | GitIgnore => [".gitignore"]
  | ConfigData => [".json"]
  | Config => [".yml"; ".yaml"]
  | OtherPurpose => []
  end.

Definition purpose_priority (p : purpose) : nat :=
  match p with
  | PythonSource => 1 | Documentation => 2 | GitIgnore => 3
  | ConfigData => 4 | Config => 5 | OtherPurpose => 6
  end%nat.

(** The lower-cased file name ends with one of the purpose's suffixes. *)
Definition EndsWith (filename : string) (p : purpose) : Prop :=
  exists suf, In suf (suffixes p) /\ Suffix suf (lower filename).

Definition inferPurpose (filename : string) (p : purpose) : Prop :=
  FirstMatch purpose_priority OtherPurpose (EndsWith filename) p.

(** *** The summarizer *)

(** ["name (purpose): +insertions/-deletions"] *)
Definition file_entry (f : KeyFile.t) : string :=
  String.concat ""
    [KeyFile.name f; " ("; KeyFile.purpose f; "): +";
     str (KeyFile.insertions f); "/-"; str (KeyFile.deletions f)].

(** The natural single-line rendering of a record. *)
Definition natural_rendering (c : Memory.t) : string :=
  String.concat ""
    ["Commit "; str (Memory.commit_number c);
     " by "; Memory.author c;
     " on "; Memory.date c;
     " ["; Memory.type c; "]: "; Memory.summary c;
     ". Files changed ("; str (Memory.files_changed_count c); "): ";
     String.concat ", " (map file_entry (Memory.key_files c));
     ". Insertions: "; str (Memory.insertions c);
     ", Deletions: "; str (Memory.deletions c); "."].

(** The rendering when it fits in [L] characters, otherwise its first [L]
    characters followed by the marker. *)
Definition bounded_rendering (L : nat) (c : Memory.t) : string :=
  let text := natural_rendering c in
  if Nat.leb (String.length text) L then text
  else substring 0 L text ++ " [...]".

Definition summarize (records : list Memory.t) (L : nat) : list string :=
  map (bounded_rendering L) records.

(** *** The detailed-vs-summarized partition *)

(** The last [r] records, and the records before them. *)
Definition detailed {A} (records : list A) (r : nat) : list A :=
  skipn (List.length records - r) records.

Definition summarized {A} (records : list A) (r : nat) : list A :=
  firstn (List.length records - r) records.

(** *** The extractor *)

(** The file entry the extractor writes for an item of [stats.files]. *)
Definition entry_of (item : string * Git.int_dict) : KeyFile.t :=
  KeyFile.Make (fst item) (infer_file_purpose (fst item))
               (Git.get (snd item) "insertions" 0)
               (Git.get (snd item) "deletions" 0).

End Spec.

(* ================================================================= *)
(** ** The specification's scenario *)

(** Three commits: "Initial commit" touching README.md (+10/-0), "Add login
    feature" touching auth.py (+50/-2), "Fix login bug" touching auth.py
    (+5/-3); and a few histories around them. *)
Module Scenario.

Definition stat (i d : Z) : Git.int_dict :=
  [("insertions", i); ("deletions", d); ("lines", i + d)].

Definition total (i d files : Z) : Git.int_dict :=
  [("insertions", i); ("deletions", d); ("lines", i + d); ("files", files)].

Definition commit1 : Git.commit :=
  Git.Commit (Some "Ann") 951782400 "Initial commit"
             (total 10 0 1) [("README.md", stat 10 0)].

Definition commit2 : Git.commit :=
  Git.Commit (Some "Ann") 1234567890 ("Add login feature" ++ NL)
             (total 50 2 1) [("auth.py", stat 50 2)].

Definition commit3 : Git.commit :=
  Git.Commit None 1700000000 "Fix login bug"
             (total 5 3 1) [("auth.py", stat 5 3)].

(** The history, newest first. *)
Definition repo : Git.repo := Git.Repo [commit3; commit2; commit1].

Definition record1 : Memory.t :=
  Memory.Make 1 "Ann" "2000-02-29" "Initial commit" "Setup" "Initial commit"
              [KeyFile.Make "README.md" "Documentation" 10 0] 10 0 1.

Definition record2 : Memory.t :=
  Memory.Make 2 "Ann" "2009-02-13" "Add login feature" "Feature"
              "Add login feature"
              [KeyFile.Make "auth.py" "Python source code" 50 2] 50 2 1.

Definition record3 : Memory.t :=
  Memory.Make 3 "Unknown" "2023-11-14" "Fix login bug" "Fix" "Fix login bug"
              [KeyFile.Make "auth.py" "Python source code" 5 3] 5 3 1.

Definition memory : list Memory.t := [record1; record2; record3].

(** A commit that touches three files, the largest change last. *)
Definition wide_commit : Git.commit :=
  Git.Commit (Some "Bob") 1700000000 "Refactor config loading"
             (total 111 3 3)
             [("a.yml", stat 1 1); ("notes.md", stat 10 2);
              ("loader.py", stat 100 0)].

Definition wide_repo : Git.repo := Git.Repo [wide_commit; commit1].

Definition wide_record : Memory.t :=
  Memory.Make 2 "Bob" "2023-11-14" "Refactor config loading" "Refactor"
              "Refactor config loading"
              [KeyFile.Make "a.yml" "Configuration file" 1 1;
               KeyFile.Make "notes.md" "Documentation" 10 2] 111 3 3.

(** A commit whose message is white space only. *)
Definition blank_commit : Git.commit :=
  Git.Commit (Some "Ann") 1700000000 ("  " ++ NL) (total 0 0 0) [].

Definition blank_repo : Git.repo := Git.Repo [commit3; blank_commit; commit1].

(** An environment without the credential, one with it, and a service
    that answers with one choice. *)
Definition no_credential (name : string) : option string := None.

Definition credential (name : string) : option string :=
  if String.eqb name "OPENAI_API_KEY" then Some "sk-test" else None.

Definition service (cl : client) (request : chat_request Z)
  : result (list (option string)) :=
  Ok [Some " Once upon a time. "].

(** A GitHub Pages repository. *)
Definition pages_url : string := "https://github.com/user/my.github.io.git".

End Scenario.

(* ================================================================= *)
(** ** streamlit_app.py *)

(** The expressions of the page that compute what is shown for a commit. *)
Module App.

(** A [dict] from [str] to [str]. *)
Definition str_dict : Type := list (string * string).

Fixpoint find (d : str_dict) (k : string) : option string :=
  match d with
  | [] => None
  | (k', v) :: rest => if String.eqb k' k then Some v else find rest k
  end.

(** [d.get(k, default)] *)
Definition get (d : str_dict) (k default : string) : string :=
  match find d k with
  | Some v => v
  | None => default
  end.

Definition file_color_map : str_dict :=
  [("Python source code", "lightblue");
   ("Documentation", "lightgreen");
   ("Configuration file", "orange");
   ("Configuration/data file", "yellow");
   ("Git ignore rules", "grey");
   ("Other", "white")].

(** [color = file_color_map.get(f['purpose'], "white")] *)
Definition color (f : KeyFile.t) : string :=
  get file_color_map (KeyFile.purpose f) "white".

(** [truncated_msg = message if len(message) <= 80 else message[:77] + "..."] *)
Definition truncated_msg (message : string) : string :=
  if len_str message <=? 80 then message
  else str_slice_to message 77 ++ "...".

End App.

(* ================================================================= *)
(** ** Shapes of strings *)

Module Shape.

(** Neither starts nor ends with white space. *)
Definition Trimmed (s : string) : Prop :=
  s = ""
  \/ ((exists c t, s = String c t /\ is_space c = false)
      /\ (exists t c, s = t ++ String c "" /\ is_space c = false)).

(** Holds no line boundary. *)
Definition OneLine (s : string) : Prop :=
  forall c, In c (list_ascii_of_string s) -> is_linebreak c = false.

(** Holds no path separator. *)
Definition NoSlash (s : string) : Prop :=
  forall c, In c (list_ascii_of_string s) -> c <> SEP.

(** A keyword that starts and ends with a visible character. *)
Fixpoint ends_visible (k : string) : bool :=
  match k with
  | "" => false
  | String c "" => negb (is_space c)
  | String _ t => ends_visible t
  end.

Definition solid (k : string) : bool :=
  match k with
  | "" => false
  | String c _ => (negb (is_space c) && ends_visible k)%bool
  end.

(** The last character. *)
Fixpoint last_char (s : string) : option ascii :=
  match s with
  | "" => None
  | String c t =>
      match t with
      | "" => Some c
      | String _ _ => last_char t
      end
  end.

End Shape.

(* ================================================================= *)
(** ** Python strings *)

Lemma startswith_iff (s p : string) :
  startswith s p = true <-> Spec.Prefix p s.
Proof.
  unfold Spec.Prefix. revert s.
  induction p as [|a p IH]; intros s.
  - simpl. split; [intros _; now exists s | reflexivity].
  - destruct s as [|b s]; simpl.
    + split; [discriminate | intros [t Ht]; discriminate].
    + rewrite andb_true_iff, Ascii.eqb_eq, IH. split.
      * intros [-> [t ->]]. now exists t.
      * intros [t Ht]. injection Ht as -> ->. split; [reflexivity | now exists t].
Qed.

Lemma contains_iff (sub s : string) :
  contains sub s = true <-> Spec.Substring sub s.
Proof.
  unfold Spec.Substring.
  induction s as [|c s IH]; simpl; rewrite orb_true_iff, startswith_iff.
  - split.
    + intros [[t Ht] | H]; [| discriminate]. now exists "", t.
    + intros [pre [post H]]. left.
      destruct pre; [now exists post | discriminate].
  - rewrite IH. split.
    + intros [[t Ht] | [pre [post H]]].
      * now exists "", t.
      * exists (String c pre), post. simpl. now rewrite H.
    + intros [pre [post H]]. destruct pre as [|c' pre].
      * left. now exists post.
      * right. simpl in H. injection H as _ H. now exists pre, post.
Qed.

Lemma endswith_iff (s suf : string) :
  endswith s suf = true <-> Spec.Suffix suf s.
Proof.
  unfold Spec.Suffix.
  induction s as [|c s IH]; cbn [endswith]; rewrite orb_true_iff, String.eqb_eq.
  - split.
    + intros [<- | H]; [now exists "" | discriminate].
    + intros [pre H]. left. destruct pre; [exact H | discriminate].
  - rewrite IH. split.
    + intros [<- | [pre H]]; [now exists "" |].
      exists (String c pre). simpl. now rewrite H.
    + intros [pre H]. destruct pre as [|c' pre].
      * now left.
      * right. simpl in H. injection H as _ H. now exists pre.
Qed.

Lemma lower_char_idempotent (c : ascii) :
  lower_char (lower_char c) = lower_char c.
Proof.
  destruct c as [[] [] [] [] [] [] [] []]; reflexivity.
Qed.

Lemma lower_idempotent (s : string) : lower (lower s) = lower s.
Proof.
  induction s as [|c s IH]; simpl; [reflexivity |].
  now rewrite lower_char_idempotent, IH.
Qed.

Lemma any_in_iff (ks : list string) (s : string) :
  any_in ks s = true <-> exists k, In k ks /\ Spec.Substring k s.
Proof.
  unfold any_in. rewrite existsb_exists.
  split; intros [k [Hk H]]; exists k; split; trivial; now apply contains_iff.
Qed.

Lemma endswith_any_iff (s : string) (sufs : list string) :
  endswith_any s sufs = true <-> exists suf, In suf sufs /\ Spec.Suffix suf s.
Proof.
  unfold endswith_any. rewrite existsb_exists.
  split; intros [k [Hk H]]; exists k; split; trivial; now apply endswith_iff.
Qed.

(* ================================================================= *)
(** ** First match wins *)

(** Each test of the classifier decides whether the category is mentioned. *)
Lemma mentions_iff (message : string) (c : Spec.category) :
  any_in (Spec.keywords c) (lower message) = true <-> Spec.Mentions message c.
Proof. apply any_in_iff. Qed.

Lemma mentions_test_iff (message : string) :
  contains "test" (lower message) = true <-> Spec.Mentions message Spec.Test.
Proof.
  rewrite <- mentions_iff. unfold any_in. simpl existsb.
  now rewrite orb_false_r.
Qed.

Lemma ends_with_iff (filename : string) (p : Spec.purpose) :
  endswith_any (lower filename) (Spec.suffixes p) = true
  <-> Spec.EndsWith filename p.
Proof. apply endswith_any_iff. Qed.

Lemma ends_with_one_iff (filename suf : string) (p : Spec.purpose) :
  Spec.suffixes p = [suf] ->
  endswith (lower filename) suf = true <-> Spec.EndsWith filename p.
Proof.
  intros E. rewrite <- ends_with_iff, E. unfold endswith_any. simpl existsb.
  now rewrite orb_false_r.
Qed.

(** Turns the outcome [E] of a test into the fact it decides. *)
Ltac decided E lemma :=
  first [ apply lemma in E
        | apply not_true_iff_false in E; rewrite lemma in E ].

(** Settles [label = label' <-> FirstMatch ...] once every test on the way
    to the answer has been decided. *)
Ltac first_match_wins rank :=
  split;
  [ let Hlabel := fresh "Hlabel" in
    intros Hlabel;
    first
      [ discriminate Hlabel
      | split;
        [ first [ left; reflexivity | right; assumption ]
        | let b := fresh "b" in
          let Hb := fresh "Hb" in
          intros b Hb; destruct b; simpl in Hb; try lia; assumption ] ]
  | let Hm := fresh "Hm" in
    let Hfirst := fresh "Hfirst" in
    intros [Hm Hfirst];
    first
      [ reflexivity
      | exfalso; destruct Hm as [Hm | Hm]; [ discriminate Hm | contradiction ]
      | exfalso;
        match goal with
        | H : _ |- _ => refine (Hfirst _ _ H); unfold rank; lia
        end ] ].

(** C3. The classifier lower-cases the message and answers with the first
    category, in the order Setup, Feature, Fix, Refactor, Test, one of whose
    keywords the message contains, and with Other when none does: its answer
    is the label of [c] exactly when [c] is mentioned (or is Other) and no
    category before [c] is.  Every message gets a label; the empty message
    gets Other; a message with both "fix" and "test" is never labelled Test,
    ["Fix failing test"] is labelled Fix, and so is every message with "fix"
    that mentions neither Setup nor Feature. *)
Theorem classify_importance_first_match (message : string) :
  (forall c : Spec.category,
      classify_importance message = Spec.label c <-> Spec.classify message c)
  /\ (exists c : Spec.category, classify_importance message = Spec.label c)
  /\ classify_importance "" = Spec.label Spec.Other
  /\ classify_importance "Fix failing test" = Spec.label Spec.Fix
  /\ (Spec.Substring "fix" (lower message) ->
      Spec.Substring "test" (lower message) ->
      classify_importance message <> Spec.label Spec.Test)
  /\ (Spec.Substring "fix" (lower message) ->
      ~ Spec.Mentions message Spec.Setup ->
      ~ Spec.Mentions message Spec.Feature ->
      classify_importance message = Spec.label Spec.Fix).
Proof.
  assert (Hall : forall c : Spec.category,
             classify_importance message = Spec.label c
             <-> Spec.classify message c).
  { intros c. unfold classify_importance, Spec.classify, Spec.FirstMatch.
    destruct (any_in ["init"; "setup"; "initial"] (lower message)) eqn:E1;
      [ decided E1 (mentions_iff message Spec.Setup)
      | decided E1 (mentions_iff message Spec.Setup);
        destruct (any_in ["add"; "feature"; "implement"] (lower message)) eqn:E2;
        [ decided E2 (mentions_iff message Spec.Feature)
        | decided E2 (mentions_iff message Spec.Feature);
          destruct (any_in ["fix"; "bug"; "issue"] (lower message)) eqn:E3;
          [ decided E3 (mentions_iff message Spec.Fix)
          | decided E3 (mentions_iff message Spec.Fix);
            destruct (any_in ["refactor"; "cleanup"] (lower message)) eqn:E4;
            [ decided E4 (mentions_iff message Spec.Refactor)
            | decided E4 (mentions_iff message Spec.Refactor);
              destruct (contains "test" (lower message)) eqn:E5;
              decided E5 (mentions_test_iff message) ] ] ] ];
      destruct c; first_match_wins Spec.priority. }
  split; [exact Hall |].
  split.
  { unfold classify_importance.
    repeat match goal with
           | |- context [if ?b then _ else _] => destruct b
           end;
      [ now exists Spec.Setup | now exists Spec.Feature | now exists Spec.Fix
      | now exists Spec.Refactor | now exists Spec.Test | now exists Spec.Other ]. }
  split; [reflexivity |].
  split; [reflexivity |].
  split.
  { intros Hfix Htest Hlabel.
    apply Hall in Hlabel. destruct Hlabel as [_ Hfirst].
    apply (Hfirst Spec.Fix); [simpl; lia |].
    exists "fix". split; [simpl; tauto | exact Hfix]. }
  intros Hfix Hsetup Hfeature. apply Hall. split.
  - right. exists "fix". split; [simpl; tauto | exact Hfix].
  - intros b Hb. destruct b; simpl in Hb; try lia; assumption.
Qed.

(** C9. The inferencer looks at the lower-cased file name only, so a name
    and its lower-cased form get the same label, as "README.MD" and
    "readme.md" do; the label is that of the first purpose, in the order
    .py, .md, .gitignore, .json, .yml/.yaml, one of whose suffixes ends the
    lower-cased name, and Other when none does.  Every name gets a label. *)
Theorem infer_file_purpose_case_insensitive (filename : string) :
  infer_file_purpose filename = infer_file_purpose (lower filename)
  /\ infer_file_purpose "README.MD" = infer_file_purpose "readme.md"
  /\ (forall p : Spec.purpose,
         infer_file_purpose filename = Spec.purpose_label p
         <-> Spec.inferPurpose filename p)
  /\ (exists p : Spec.purpose,
         infer_file_purpose filename = Spec.purpose_label p).
Proof.
  split.
  { unfold infer_file_purpose. now rewrite lower_idempotent. }
  split; [reflexivity |].
  split.
  { intros p. unfold infer_file_purpose, Spec.inferPurpose, Spec.FirstMatch.
    destruct (endswith (lower filename) ".py") eqn:E1;
      [ decided E1 (ends_with_one_iff filename ".py" Spec.PythonSource eq_refl)
      | decided E1 (ends_with_one_iff filename ".py" Spec.PythonSource eq_refl);
        destruct (endswith (lower filename) ".md") eqn:E2;
        [ decided E2 (ends_with_one_iff filename ".md" Spec.Documentation eq_refl)
        | decided E2 (ends_with_one_iff filename ".md" Spec.Documentation eq_refl);
          destruct (endswith (lower filename) ".gitignore") eqn:E3;
          [ decided E3 (ends_with_one_iff filename ".gitignore" Spec.GitIgnore eq_refl)
          | decided E3 (ends_with_one_iff filename ".gitignore" Spec.GitIgnore eq_refl);
            destruct (endswith (lower filename) ".json") eqn:E4;
            [ decided E4 (ends_with_one_iff filename ".json" Spec.ConfigData eq_refl)
            | decided E4 (ends_with_one_iff filename ".json" Spec.ConfigData eq_refl);
              destruct (endswith_any (lower filename) [".yml"; ".yaml"]) eqn:E5;
              decided E5 (ends_with_iff filename Spec.Config) ] ] ] ];
      destruct p; first_match_wins Spec.purpose_priority. }
  unfold infer_file_purpose.
  repeat match goal with
         | |- context [if ?b then _ else _] => destruct b
         end;
    [ now exists Spec.PythonSource | now exists Spec.Documentation
    | now exists Spec.GitIgnore | now exists Spec.ConfigData
    | now exists Spec.Config | now exists Spec.OtherPurpose ].
Qed.

(* ================================================================= *)
(** ** Slices *)

Lemma string_length_app (s t : string) :
  String.length (s ++ t) = (String.length s + String.length t)%nat.
Proof. induction s as [|c s IH]; simpl; [reflexivity | now rewrite IH]. Qed.

Lemma take_substring (n : nat) (s : string) : take n s = substring 0 n s.
Proof.
  revert s. induction n as [|n IH]; intros [|c s]; simpl; trivial.
  now rewrite IH.
Qed.

Lemma take_length (n : nat) (s : string) :
  String.length (take n s) = Nat.min n (String.length s).
Proof.
  revert s. induction n as [|n IH]; intros [|c s]; simpl; trivial.
  now rewrite IH.
Qed.

Lemma take_all (n : nat) (s : string) :
  (String.length s <= n)%nat -> take n s = s.
Proof.
  revert s. induction n as [|n IH]; intros [|c s]; simpl; trivial;
    intros H; [lia |]. rewrite IH; [reflexivity | lia].
Qed.

(** A non-negative bound is a position from the front. *)
Lemma bound_nonneg (n : nat) (i : Z) :
  0 <= i -> bound n i = Nat.min (Z.to_nat i) n.
Proof.
  intros H. unfold bound. destruct (Z.ltb_spec i 0); [lia | reflexivity].
Qed.

(** A negative bound is a position from the end. *)
Lemma bound_neg (n : nat) (r : Z) :
  0 < r -> bound n (- r) = (n - Z.to_nat r)%nat.
Proof.
  intros H. unfold bound. destruct (Z.ltb_spec (- r) 0); lia.
Qed.

(** [-0] is [0]: the front of the sequence, not its end. *)
Lemma bound_minus_zero (n : nat) : bound n (- 0) = 0%nat.
Proof. reflexivity. Qed.

(** For [1 <= r], the two slices are the last [r] records and the ones
    before them, whatever the length. *)
Lemma partition_positive {A} (memory : list A) (r : Z) :
  0 < r ->
  slice_from memory (- r) = Spec.detailed memory (Z.to_nat r)
  /\ slice_to memory (- r) = Spec.summarized memory (Z.to_nat r).
Proof.
  intros H. unfold slice_from, slice_to, Spec.detailed, Spec.summarized.
  now rewrite bound_neg.
Qed.

Lemma partition_positive_sizes (memory : list Memory.t) (r : Z) :
  0 < r <= len memory ->
  (older_memory memory r ++ recent_memory memory r)%list = memory
  /\ len (recent_memory memory r) = r
  /\ len (older_memory memory r) = len memory - r.
Proof.
  intros H. unfold older_memory, recent_memory, slice_from, slice_to, len in *.
  rewrite bound_neg by lia.
  rewrite firstn_skipn, length_skipn, length_firstn.
  repeat split; lia.
Qed.

(* ================================================================= *)
(** ** The summarizer *)

Lemma join_concat (sep : string) (parts : list string) :
  join sep parts = String.concat sep parts.
Proof.
  induction parts as [|p rest IH]; [reflexivity |].
  destruct rest as [|q rest]; [reflexivity |].
  change (join sep (p :: q :: rest)) with (p ++ sep ++ join sep (q :: rest)).
  change (String.concat sep (p :: q :: rest))
    with (p ++ sep ++ String.concat sep (q :: rest)).
  now rewrite IH.
Qed.

Lemma files_info_rendering (c : Memory.t) :
  files_info c = String.concat ", " (map Spec.file_entry (Memory.key_files c)).
Proof.
  unfold files_info. rewrite join_concat. f_equal.
Qed.

Lemma commit_text_rendering (c : Memory.t) :
  commit_text c = Spec.natural_rendering c.
Proof.
  unfold commit_text, Spec.natural_rendering.
  rewrite files_info_rendering. reflexivity.
Qed.

Lemma summarize_one_bounded (L : Z) (c : Memory.t) :
  0 <= L -> summarize_one L c = Spec.bounded_rendering (Z.to_nat L) c.
Proof.
  intros HL. unfold summarize_one, Spec.bounded_rendering, TRUNCATION_MARKER.
  rewrite (commit_text_rendering c).
  generalize (Spec.natural_rendering c) as text. intros text.
  unfold len_str, str_slice_to. rewrite bound_nonneg by exact HL.
  destruct (Z.gtb_spec (Z.of_nat (String.length text)) L) as [Hgt | Hle].
  - destruct (Nat.leb_spec (String.length text) (Z.to_nat L)); [lia |].
    rewrite Nat.min_l by lia. now rewrite take_substring.
  - destruct (Nat.leb_spec (String.length text) (Z.to_nat L)); [| lia].
    reflexivity.
Qed.

(** C2. For a positive bound [L], the summarizer returns one string per
    record, in the records' order: the natural rendering "Commit n by author
    on date [category]: headline. Files changed (k): entries. Insertions: i,
    Deletions: d." when it has at most [L] characters, and otherwise its
    first [L] characters followed by " [...]", which makes [L] plus the
    marker's six characters. *)
Theorem summarize_commits_bounded (memory : list Memory.t) (L : Z) :
  0 < L ->
  summarize_commits memory L = Spec.summarize memory (Z.to_nat L)
  /\ List.length (summarize_commits memory L) = List.length memory
  /\ (forall (i : nat) (c : Memory.t),
         nth_error memory i = Some c ->
         nth_error (summarize_commits memory L) i
         = Some (if len_str (Spec.natural_rendering c) <=? L
                 then Spec.natural_rendering c
                 else substring 0 (Z.to_nat L) (Spec.natural_rendering c)
                      ++ " [...]"))
  /\ (forall c : Memory.t,
         L < len_str (Spec.natural_rendering c) ->
         len_str (summarize_one L c) = L + len_str " [...]").
Proof.
  intros HL.
  assert (Hmap : summarize_commits memory L = Spec.summarize memory (Z.to_nat L)).
  { unfold summarize_commits, Spec.summarize. apply map_ext.
    intros c. apply summarize_one_bounded. lia. }
  split; [exact Hmap |].
  split; [unfold summarize_commits; apply length_map |].
  split.
  - intros i c Hi. unfold summarize_commits.
    rewrite nth_error_map, Hi. simpl. f_equal.
    rewrite summarize_one_bounded by lia.
    unfold Spec.bounded_rendering, len_str.
    destruct (Nat.leb_spec (String.length (Spec.natural_rendering c)) (Z.to_nat L));
      destruct (Z.leb_spec (Z.of_nat (String.length (Spec.natural_rendering c))) L);
      trivial; lia.
  - intros c Hc. rewrite summarize_one_bounded by lia.
    unfold Spec.bounded_rendering, len_str in *.
    destruct (Nat.leb_spec (String.length (Spec.natural_rendering c)) (Z.to_nat L));
      [lia |].
    rewrite string_length_app, <- take_substring, take_length.
    rewrite Nat.min_l by lia. simpl String.length. lia.
Qed.

(* ================================================================= *)
(** ** Loops that can raise *)

Section ForEach.

Context {A B : Type}.
Variable body : A -> result B.

(** A loop that ends normally ran its body on every element, in order. *)
Lemma for_each_ok (l : list A) (ys : list B) :
  for_each body l = Ok ys -> Forall2 (fun x y => body x = Ok y) l ys.
Proof.
  revert ys. induction l as [|x l IH]; simpl; intros ys H.
  - injection H as <-. constructor.
  - destruct (body x) as [y|e] eqn:Ex; simpl in H; [| discriminate].
    destruct (for_each body l) as [ys'|e] eqn:El; simpl in H; [| discriminate].
    injection H as <-. constructor; [exact Ex | now apply IH].
Qed.

(** A body that raises on some element makes the loop raise. *)
Lemma for_each_raises (l : list A) :
  Exists (fun x => exists e, body x = Raise e) l ->
  exists e, for_each body l = Raise e.
Proof.
  induction 1 as [x l [e He] | x l _ [e IH]]; simpl.
  - rewrite He. now exists e.
  - destruct (body x) as [y|e0]; simpl.
    + rewrite IH. now exists e.
    + now exists e0.
Qed.

(** A body that never raises lets the loop end normally. *)
Lemma for_each_total (l : list A) :
  Forall (fun x => exists y, body x = Ok y) l ->
  exists ys, for_each body l = Ok ys.
Proof.
  induction 1 as [| x l [y Hy] _ [ys IH]]; simpl.
  - now exists [].
  - rewrite Hy, IH. now exists (y :: ys).
Qed.

End ForEach.

Lemma enumerate_nth {A} (l : list A) (start : Z) (i : nat) :
  nth_error (enumerate l start) i
  = option_map (fun x => (start + Z.of_nat i, x)) (nth_error l i).
Proof.
  revert start i. induction l as [|x l IH]; intros start [|i]; simpl; trivial.
  - now rewrite Z.add_0_r.
  - rewrite IH. destruct (nth_error l i); simpl; [| reflexivity].
    do 2 f_equal. lia.
Qed.

Lemma enumerate_in {A} (l : list A) (start : Z) (x : A) :
  In x l -> exists idx, In (idx, x) (enumerate l start).
Proof.
  revert start. induction l as [|y l IH]; intros start; simpl; [tauto |].
  intros [-> | H].
  - exists start. now left.
  - destruct (IH (start + 1) H) as [idx Hidx]. exists idx. now right.
Qed.

Lemma Forall2_nth_error_right {A B} (R : A -> B -> Prop) (l : list A)
  (l' : list B) (i : nat) (y : B) :
  Forall2 R l l' -> nth_error l' i = Some y ->
  exists x, nth_error l i = Some x /\ R x y.
Proof.
  intros H. revert i. induction H as [| x0 y0 l l' Hxy _ IH]; intros [|i] Hi;
    simpl in *; try discriminate.
  - injection Hi as <-. now exists x0.
  - now apply IH.
Qed.

(* ================================================================= *)
(** ** The messages that have a headline *)

Lemma linebreak_is_space (c : ascii) : is_linebreak c = true -> is_space c = true.
Proof.
  destruct c as [[] [] [] [] [] [] [] []]; vm_compute; trivial.
Qed.

Lemma lstrip_whitespace (s : string) :
  Spec.whitespace_only s = true -> lstrip s = "".
Proof.
  induction s as [|c s IH]; simpl; [reflexivity |].
  rewrite andb_true_iff. intros [Hc Hs]. rewrite Hc. now apply IH.
Qed.

(** What [lstrip] leaves of a string with a visible character starts with
    one. *)
Lemma lstrip_visible (s : string) :
  Spec.whitespace_only s = false ->
  exists c t, lstrip s = String c t /\ is_space c = false.
Proof.
  induction s as [|c s IH]; simpl; [discriminate |].
  destruct (is_space c) eqn:Hc; simpl.
  - exact IH.
  - intros _. now exists c, s.
Qed.

Lemma rstrip_visible (c : ascii) (t : string) :
  is_space c = false -> exists t', rstrip (String c t) = String c t'.
Proof.
  intros Hc. simpl. rewrite Hc. destruct (rstrip t) as [|d u].
  - now exists "".
  - now exists (String d u).
Qed.

(** A message is blank exactly when nothing is left of it once stripped. *)
Lemma strip_blank_iff (s : string) :
  strip s = "" <-> Spec.whitespace_only s = true.
Proof.
  unfold strip. split.
  - intros H. destruct (Spec.whitespace_only s) eqn:E; [reflexivity |].
    destruct (lstrip_visible s E) as [c [t [Hl Hc]]]. rewrite Hl in H.
    destruct (rstrip_visible c t Hc) as [t' Ht']. rewrite Ht' in H.
    discriminate.
  - intros H. now rewrite lstrip_whitespace.
Qed.

Lemma strip_visible (s : string) :
  Spec.whitespace_only s = false ->
  exists c t, strip s = String c t /\ is_space c = false.
Proof.
  intros E. unfold strip.
  destruct (lstrip_visible s E) as [c [t [Hl Hc]]]. rewrite Hl.
  destruct (rstrip_visible c t Hc) as [t' Ht']. rewrite Ht'.
  now exists c, t'.
Qed.

Lemma append_not_empty (s : string) (c : ascii) : s ++ String c "" <> "".
Proof. destruct s; discriminate. Qed.

(** A line that has been started is always delivered. *)
Lemma splitlines_started (cur : string) (after_cr : bool) (s : string) :
  cur <> "" -> splitlines_from cur after_cr s <> [].
Proof.
  revert cur after_cr. induction s as [|c s IH]; intros cur after_cr Hcur; simpl.
  - destruct (String.eqb_spec cur ""); [contradiction | discriminate].
  - destruct (after_cr && Ascii.eqb c LF)%bool; [now apply IH |].
    destruct (is_linebreak c); [discriminate |].
    apply IH. apply append_not_empty.
Qed.

(** The headline exists exactly for the messages that are not blank. *)
Lemma headline_blank (message : string) :
  Spec.whitespace_only message = true ->
  splitlines (strip message) = []
  /\ first (splitlines (strip message)) = Raise IndexError.
Proof.
  intros H. apply strip_blank_iff in H. rewrite H. split; reflexivity.
Qed.

Lemma headline_visible (message : string) :
  Spec.whitespace_only message = false ->
  exists headline, first (splitlines (strip message)) = Ok headline.
Proof.
  intros H. destruct (strip_visible message H) as [c [t [Hs Hc]]].
  rewrite Hs. unfold splitlines. simpl.
  destruct (is_linebreak c) eqn:Hl.
  - apply linebreak_is_space in Hl. congruence.
  - pose proof (splitlines_started (String c "") false t) as Hne.
    destruct (splitlines_from (String c "") false t) as [|h rest].
    + exfalso. apply Hne; [discriminate | reflexivity].
    + now exists h.
Qed.

(* ================================================================= *)
(** ** The memory extractor *)

Lemma enumerate_in_inv {A} (l : list A) (start idx : Z) (x : A) :
  In (idx, x) (enumerate l start) -> In x l.
Proof.
  revert start. induction l as [|y l IH]; intros start; simpl; [tauto |].
  intros [H | H].
  - injection H as _ ->. now left.
  - right. now apply (IH (start + 1)).
Qed.

Lemma Forall2_enumerate {A B} (R : A -> B -> Prop) (l : list A) (start : Z)
  (l' : list B) :
  Forall2 (fun p y => R (snd p) y) (enumerate l start) l' -> Forall2 R l l'.
Proof.
  revert start l'. induction l as [|x l IH]; intros start l' H; simpl in H.
  - inversion H. constructor.
  - inversion H as [| p y ps ys Hxy Hrest]; subst.
    constructor; [exact Hxy | now apply (IH (start + 1))].
Qed.

Lemma nth_error_seq_pos (start n i : nat) :
  nth_error (seq start n) i
  = if Nat.ltb i n then Some (start + i)%nat else None.
Proof.
  revert start i. induction n as [|n IH]; intros start [|i]; simpl; trivial.
  - now rewrite Nat.add_0_r.
  - rewrite IH. change (Nat.ltb (S i) (S n)) with (Nat.ltb i n).
    destruct (Nat.ltb i n); [| reflexivity]. f_equal. lia.
Qed.

(** What an entry holds when the loop body ends normally. *)
Lemma memory_entry_ok (top_files idx : Z) (c : Git.commit) (r : Memory.t) :
  memory_entry top_files idx c = Ok r ->
  exists day headline,
    Datetime.utc_date (Git.committed_date c) = Ok day
    /\ first (splitlines (strip (Git.message c))) = Ok headline
    /\ r = Memory.Make idx
             (match Git.author c with Some n => n | None => "Unknown" end)
             day (strip (Git.message c))
             (classify_importance (Git.message c)) headline
             (important_files c top_files)
             (Git.get (Git.stats_total c) "insertions" 0)
             (Git.get (Git.stats_total c) "deletions" 0)
             (len (Git.stats_files c)).
Proof.
  unfold memory_entry.
  destruct (Datetime.utc_date (Git.committed_date c)) as [day|e]; simpl;
    [| discriminate].
  destruct (first (splitlines (strip (Git.message c)))) as [headline|e]; simpl;
    [| discriminate].
  intros H. injection H as <-. now exists day, headline.
Qed.

Lemma memory_entry_blank (top_files idx : Z) (c : Git.commit) :
  Spec.whitespace_only (Git.message c) = true ->
  exists e, memory_entry top_files idx c = Raise e.
Proof.
  intros H. destruct (headline_blank _ H) as [_ Hfirst].
  unfold memory_entry. rewrite Hfirst.
  destruct (Datetime.utc_date (Git.committed_date c)) as [day|e]; simpl.
  - now exists IndexError.
  - now exists e.
Qed.

Lemma memory_entry_total (top_files idx : Z) (c : Git.commit) :
  Spec.whitespace_only (Git.message c) = false ->
  (exists day, Datetime.utc_date (Git.committed_date c) = Ok day) ->
  exists r, memory_entry top_files idx c = Ok r.
Proof.
  intros H [day Hday]. destruct (headline_visible _ H) as [headline Hfirst].
  unfold memory_entry. rewrite Hday, Hfirst. simpl. eauto.
Qed.

(** The entries of a run that ends normally, position by position. *)
Lemma extract_entries (top_files : Z) (commits : list Git.commit) (start : Z)
  (memory : list Memory.t) :
  for_each (fun '(idx, commit) => memory_entry top_files idx commit)
           (enumerate commits start) = Ok memory ->
  List.length memory = List.length commits
  /\ Forall2 (fun c r => exists idx, memory_entry top_files idx c = Ok r)
             commits memory
  /\ forall (i : nat) (r : Memory.t),
       nth_error memory i = Some r ->
       exists c, nth_error commits i = Some c
                 /\ memory_entry top_files (start + Z.of_nat i) c = Ok r.
Proof.
  intros H. apply for_each_ok in H.
  assert (Hall : Forall2 (fun c r => exists idx, memory_entry top_files idx c = Ok r)
                         commits memory).
  { apply (Forall2_enumerate _ commits start).
    eapply Forall2_impl; [| exact H].
    intros [idx c] r Hr. now exists idx. }
  split; [symmetry; exact (Forall2_length Hall) |].
  split; [exact Hall |].
  intros i r Hi.
  destruct (Forall2_nth_error_right _ _ _ _ _ H Hi) as [[idx c] [Hc Hr]].
  rewrite enumerate_nth in Hc.
  destruct (nth_error commits i) as [c'|]; simpl in Hc; [| discriminate].
  injection Hc as <- <-. now exists c'.
Qed.

(** With a non-negative [top_files], the inner loop sees the first
    [top_files] items of [stats.files], all of them when there are fewer. *)
Lemma important_files_first (c : Git.commit) (N : Z) :
  0 <= N ->
  important_files c N
  = map Spec.entry_of
        (firstn (Nat.min (Z.to_nat N) (List.length (Git.stats_files c)))
                (Git.stats_files c)).
Proof.
  intros HN. unfold important_files, slice_to. rewrite bound_nonneg by exact HN.
  apply map_ext. now intros [f s].
Qed.

(** The listing call raises in a repository without a commit and yields the
    listing otherwise. *)
Lemma extract_commit_memory_unborn (repo : Git.repo) (max_commits top_files : Z) :
  Git.head_log repo = [] ->
  extract_commit_memory repo max_commits top_files = Raise GitCommandError.
Proof.
  intros H. unfold extract_commit_memory, Git.list_iter_commits. now rewrite H.
Qed.

Lemma extract_commit_memory_listed (repo : Git.repo) (max_commits top_files : Z) :
  Git.head_log repo <> [] ->
  extract_commit_memory repo max_commits top_files
  = for_each (fun '(idx, commit) => memory_entry top_files idx commit)
             (enumerate (rev (Git.iter_commits repo max_commits)) 1).
Proof.
  intros H. unfold extract_commit_memory, Git.list_iter_commits.
  destruct (Git.head_log repo); [contradiction | reflexivity].
Qed.

Lemma extract_commit_memory_ok (repo : Git.repo) (max_commits top_files : Z)
  (memory : list Memory.t) :
  extract_commit_memory repo max_commits top_files = Ok memory ->
  Git.head_log repo <> []
  /\ for_each (fun '(idx, commit) => memory_entry top_files idx commit)
              (enumerate (rev (Git.iter_commits repo max_commits)) 1)
     = Ok memory.
Proof.
  intros H. destruct (Git.head_log repo) as [|c log] eqn:E.
  - rewrite (extract_commit_memory_unborn _ _ _ E) in H. discriminate.
  - split; [discriminate |].
    rewrite <- H. symmetry. apply extract_commit_memory_listed.
    rewrite E. discriminate.
Qed.

Lemma iter_commits_in (repo : Git.repo) (max_commits : Z) (c : Git.commit) :
  In c (Git.iter_commits repo max_commits) -> Git.head_log repo <> [].
Proof.
  unfold Git.iter_commits. intros H E. rewrite E in H.
  destruct (max_commits <? 0); [exact H |].
  rewrite firstn_nil in H. exact H.
Qed.

(** C6. The records of an extraction follow the history listing backwards,
    oldest first: the record at 0-based position [i] is the entry of the
    commit at position [n - 1 - i] of the newest-first listing, and its
    sequence number is [i + 1]; so the sequence numbers are 1, 2, ..., n. *)
Theorem extract_commit_memory_numbering (repo : Git.repo)
  (max_commits top_files : Z) (memory : list Memory.t) :
  extract_commit_memory repo max_commits top_files = Ok memory ->
  List.length memory = List.length (Git.iter_commits repo max_commits)
  /\ map Memory.commit_number memory
     = map Z.of_nat (seq 1 (List.length memory))
  /\ forall (i : nat) (r : Memory.t),
       nth_error memory i = Some r ->
       Memory.commit_number r = Z.of_nat i + 1
       /\ exists c,
           nth_error (Git.iter_commits repo max_commits)
                     (List.length (Git.iter_commits repo max_commits) - 1 - i)
           = Some c
           /\ memory_entry top_files (Z.of_nat i + 1) c = Ok r.
Proof.
  intros H. apply extract_commit_memory_ok in H. destruct H as [_ H].
  apply extract_entries in H. destruct H as [Hlen [_ Hnth]].
  rewrite length_rev in Hlen.
  assert (Hrec : forall i r, nth_error memory i = Some r ->
            Memory.commit_number r = Z.of_nat i + 1
            /\ exists c,
                nth_error (Git.iter_commits repo max_commits)
                  (List.length (Git.iter_commits repo max_commits) - 1 - i)
                = Some c
                /\ memory_entry top_files (Z.of_nat i + 1) c = Ok r).
  { intros i r Hi. destruct (Hnth i r Hi) as [c [Hc Hr]].
    replace (1 + Z.of_nat i) with (Z.of_nat i + 1) in Hr by lia.
    split.
    - destruct (memory_entry_ok _ _ _ _ Hr) as [day [headline [_ [_ ->]]]].
      reflexivity.
    - exists c. split; [| exact Hr].
      rewrite nth_error_rev in Hc.
      destruct (Nat.ltb i (List.length (Git.iter_commits repo max_commits)));
        [| discriminate].
      rewrite <- Hc. f_equal. lia. }
  split; [exact Hlen |].
  split; [| exact Hrec].
  apply nth_error_ext. intros i.
  rewrite !nth_error_map, nth_error_seq_pos.
  destruct (nth_error memory i) as [r|] eqn:Hi; simpl.
  - destruct (Hrec i r Hi) as [-> _].
    assert (Hlt : (i < List.length memory)%nat)
      by (apply nth_error_Some; congruence).
    apply Nat.ltb_lt in Hlt. rewrite Hlt. simpl. f_equal. lia.
  - apply nth_error_None in Hi.
    destruct (Nat.ltb_spec i (List.length memory)); [lia | reflexivity].
Qed.

(** C4. With [top_files = N], [N >= 0], every record of an extraction holds
    the entries of exactly the first [min N k] items of its commit's
    [stats.files], in the order the history reports them, [k] being the
    number of files the commit touched, which is the record's
    [files_changed_count]; so it holds at most [N] entries. *)
Theorem extract_commit_memory_top_files (repo : Git.repo) (max_commits N : Z)
  (memory : list Memory.t) :
  0 <= N ->
  extract_commit_memory repo max_commits N = Ok memory ->
  Forall2
    (fun c r =>
       Memory.key_files r
       = map Spec.entry_of
           (firstn (Nat.min (Z.to_nat N) (List.length (Git.stats_files c)))
                   (Git.stats_files c))
       /\ map KeyFile.name (Memory.key_files r)
          = firstn (Nat.min (Z.to_nat N) (List.length (Git.stats_files c)))
                   (map fst (Git.stats_files c))
       /\ Memory.files_changed_count r = len (Git.stats_files c)
       /\ len (Memory.key_files r) = Z.min N (Memory.files_changed_count r)
       /\ len (Memory.key_files r) <= N)
    (rev (Git.iter_commits repo max_commits)) memory.
Proof.
  intros HN H. apply extract_commit_memory_ok in H. destruct H as [_ H].
  apply extract_entries in H. destruct H as [_ [Hall _]].
  eapply Forall2_impl; [| exact Hall].
  intros c r [idx Hr].
  destruct (memory_entry_ok _ _ _ _ Hr) as [day [headline [_ [_ ->]]]].
  cbn [Memory.key_files Memory.files_changed_count].
  rewrite (important_files_first c N HN).
  split; [reflexivity |].
  split.
  { rewrite map_map. cbn [Spec.entry_of KeyFile.name].
    now rewrite firstn_map. }
  split; [reflexivity |].
  unfold len. rewrite length_map, length_firstn. lia.
Qed.

(** A loop whose body can only raise [e] raises [e] once its body raises. *)
Lemma for_each_raises_with {A B} (body : A -> result B) (e : exn) (l : list A) :
  Forall (fun x => forall e', body x = Raise e' -> e' = e) l ->
  Exists (fun x => exists e', body x = Raise e') l ->
  for_each body l = Raise e.
Proof.
  intros Hall Hex. induction Hex as [x l [e' He'] | x l _ IH]; simpl;
    inversion Hall as [| x0 l0 Hx Hl]; subst.
  - rewrite He'. simpl. f_equal. now apply Hx.
  - destruct (body x) as [y|e0] eqn:Ex; simpl.
    + now rewrite (IH Hl).
    + f_equal. now apply Hx.
Qed.

(** The precondition is sufficient: in a repository that has a commit, an
    extraction whose commits all have a visible message and a date the
    calendar can hold ends normally. *)
Lemma extract_commit_memory_total (repo : Git.repo) (max_commits top_files : Z) :
  Git.head_log repo <> [] ->
  Forall (fun c => Spec.whitespace_only (Git.message c) = false
                   /\ exists day,
                       Datetime.utc_date (Git.committed_date c) = Ok day)
         (Git.iter_commits repo max_commits) ->
  exists memory, extract_commit_memory repo max_commits top_files = Ok memory.
Proof.
  intros Hhead H. rewrite (extract_commit_memory_listed _ _ _ Hhead).
  apply for_each_total.
  apply Forall_forall. intros [idx c] Hin.
  apply enumerate_in_inv, in_rev in Hin.
  rewrite Forall_forall in H. destruct (H c Hin) as [Hmsg Hday].
  now apply memory_entry_total.
Qed.

(** When the dates are in range, the exception is the [IndexError] of the
    headline. *)
Lemma extract_commit_memory_index_error (repo : Git.repo)
  (max_commits top_files : Z) :
  Forall (fun c => exists day,
              Datetime.utc_date (Git.committed_date c) = Ok day)
         (Git.iter_commits repo max_commits) ->
  Exists (fun c => Spec.whitespace_only (Git.message c) = true)
         (Git.iter_commits repo max_commits) ->
  extract_commit_memory repo max_commits top_files = Raise IndexError.
Proof.
  intros Hdates Hblank.
  assert (Hhead : Git.head_log repo <> []).
  { apply Exists_exists in Hblank. destruct Hblank as [c [Hin _]].
    exact (iter_commits_in _ _ _ Hin). }
  rewrite (extract_commit_memory_listed _ _ _ Hhead).
  apply for_each_raises_with.
  - apply Forall_forall. intros [idx c] Hin e' He'.
    apply enumerate_in_inv, in_rev in Hin.
    rewrite Forall_forall in Hdates. destruct (Hdates c Hin) as [day Hday].
    unfold memory_entry in He'. rewrite Hday in He'. simpl in He'.
    destruct (first (splitlines (strip (Git.message c)))) as [h|e0] eqn:Ef;
      simpl in He'; [discriminate |].
    injection He' as <-.
    destruct (splitlines (strip (Git.message c))); simpl in Ef;
      [now injection Ef as <- | discriminate].
  - apply Exists_exists in Hblank. destruct Hblank as [c [Hin Hc]].
    apply in_rev in Hin.
    destruct (enumerate_in _ 1 _ Hin) as [idx Hidx].
    apply Exists_exists. exists (idx, c). split; [exact Hidx |].
    now apply memory_entry_blank.
Qed.

(** C10. A commit of the listing whose message is empty or made of white
    space only leaves no line to take the headline from: indexing the first
    line raises [IndexError], and the extraction raises instead of returning
    records.  Hence an extraction that returns records met no such commit. *)
Theorem extract_commit_memory_blank_message (repo : Git.repo)
  (max_commits top_files : Z) (c : Git.commit) :
  In c (Git.iter_commits repo max_commits) ->
  Spec.whitespace_only (Git.message c) = true ->
  splitlines (strip (Git.message c)) = []
  /\ first (splitlines (strip (Git.message c))) = Raise IndexError
  /\ (exists e, extract_commit_memory repo max_commits top_files = Raise e)
  /\ forall memory, extract_commit_memory repo max_commits top_files <> Ok memory.
Proof.
  intros Hin Hblank.
  destruct (headline_blank _ Hblank) as [Hlines Hfirst].
  assert (Hraise : exists e,
             extract_commit_memory repo max_commits top_files = Raise e).
  { rewrite (extract_commit_memory_listed _ _ _ (iter_commits_in _ _ _ Hin)).
    apply for_each_raises.
    apply in_rev in Hin. destruct (enumerate_in _ 1 _ Hin) as [idx Hidx].
    apply Exists_exists. exists (idx, c). split; [exact Hidx |].
    now apply memory_entry_blank. }
  repeat split; trivial.
  intros memory Hok. destruct Hraise as [e He]. congruence.
Qed.

(* ================================================================= *)
(** ** The scenario, run *)

Example scenario_extraction :
  extract_commit_memory Scenario.repo 50 5 = Ok Scenario.memory.
Proof. reflexivity. Qed.

Example scenario_categories :
  map Memory.type Scenario.memory = ["Setup"; "Feature"; "Fix"]
  /\ map Memory.commit_number Scenario.memory = [1; 2; 3].
Proof. split; reflexivity. Qed.

Example scenario_partition :
  older_memory Scenario.memory 1 = [Scenario.record1; Scenario.record2]
  /\ recent_memory Scenario.memory 1 = [Scenario.record3].
Proof. split; reflexivity. Qed.

Example scenario_wide_extraction :
  extract_commit_memory Scenario.wide_repo 50 2
  = Ok [Scenario.record1; Scenario.wide_record].
Proof. reflexivity. Qed.

(** Outside the specification's domain: a negative [top_files] counts from
    the end, so [-1] keeps all the files but the last. *)
Example scenario_negative_top_files :
  map KeyFile.name (important_files Scenario.wide_commit (-1))
  = ["a.yml"; "notes.md"].
Proof. reflexivity. Qed.

Lemma summarize_commits_bounded_witness :
  0 < 40
  /\ summarize_commits Scenario.memory 40 = Spec.summarize Scenario.memory 40
  /\ List.length (summarize_commits Scenario.memory 40)
     = List.length Scenario.memory
  /\ (forall (i : nat) (c : Memory.t),
         nth_error Scenario.memory i = Some c ->
         nth_error (summarize_commits Scenario.memory 40) i
         = Some (if len_str (Spec.natural_rendering c) <=? 40
                 then Spec.natural_rendering c
                 else substring 0 40 (Spec.natural_rendering c) ++ " [...]"))
  /\ (forall c : Memory.t,
         40 < len_str (Spec.natural_rendering c) ->
         len_str (summarize_one 40 c) = 40 + len_str " [...]").
Proof.
  split; [reflexivity |].
  apply (summarize_commits_bounded Scenario.memory 40). reflexivity.
Defined.

Lemma extract_commit_memory_numbering_witness :
  extract_commit_memory Scenario.repo 50 5 = Ok Scenario.memory
  /\ List.length Scenario.memory
     = List.length (Git.iter_commits Scenario.repo 50)
  /\ map Memory.commit_number Scenario.memory
     = map Z.of_nat (seq 1 (List.length Scenario.memory))
  /\ forall (i : nat) (r : Memory.t),
       nth_error Scenario.memory i = Some r ->
       Memory.commit_number r = Z.of_nat i + 1
       /\ exists c,
           nth_error (Git.iter_commits Scenario.repo 50)
                     (List.length (Git.iter_commits Scenario.repo 50) - 1 - i)
           = Some c
           /\ memory_entry 5 (Z.of_nat i + 1) c = Ok r.
Proof.
  split; [reflexivity |].
  apply (extract_commit_memory_numbering Scenario.repo 50 5 Scenario.memory).
  reflexivity.
Defined.

Lemma extract_commit_memory_top_files_witness :
  0 <= 2
  /\ extract_commit_memory Scenario.wide_repo 50 2
     = Ok [Scenario.record1; Scenario.wide_record]
  /\ Forall2
       (fun c r =>
          Memory.key_files r
          = map Spec.entry_of
              (firstn (Nat.min (Z.to_nat 2) (List.length (Git.stats_files c)))
                      (Git.stats_files c))
          /\ map KeyFile.name (Memory.key_files r)
             = firstn (Nat.min (Z.to_nat 2) (List.length (Git.stats_files c)))
                      (map fst (Git.stats_files c))
          /\ Memory.files_changed_count r = len (Git.stats_files c)
          /\ len (Memory.key_files r) = Z.min 2 (Memory.files_changed_count r)
          /\ len (Memory.key_files r) <= 2)
       (rev (Git.iter_commits Scenario.wide_repo 50))
       [Scenario.record1; Scenario.wide_record].
Proof.
  split; [discriminate |].
  split; [reflexivity |].
  apply (extract_commit_memory_top_files Scenario.wide_repo 50 2);
    [discriminate | reflexivity].
Defined.

Lemma extract_commit_memory_blank_message_witness :
  In Scenario.blank_commit (Git.iter_commits Scenario.blank_repo 50)
  /\ Spec.whitespace_only (Git.message Scenario.blank_commit) = true
  /\ splitlines (strip (Git.message Scenario.blank_commit)) = []
  /\ first (splitlines (strip (Git.message Scenario.blank_commit)))
     = Raise IndexError
  /\ (exists e, extract_commit_memory Scenario.blank_repo 50 5 = Raise e)
  /\ forall memory, extract_commit_memory Scenario.blank_repo 50 5 <> Ok memory.
Proof.
  split; [right; left; reflexivity |].
  split; [reflexivity |].
  apply (extract_commit_memory_blank_message Scenario.blank_repo 50 5
           Scenario.blank_commit);
    [right; left; reflexivity | reflexivity].
Defined.

Example scenario_blank_extraction :
  extract_commit_memory Scenario.blank_repo 50 5 = Raise IndexError.
Proof. reflexivity. Qed.

(* ================================================================= *)
(** ** The detailed-vs-summarized partition *)

(** C1. With [max_recent = 0] the two slices are [memory[-0:]] and
    [memory[:-0]], that is [memory[0:]] and [memory[:0]]: every record is in
    the detailed partition and none is summarized, the opposite of the last-0
    / first-n split; from [max_recent = 1] on the split is the last
    [max_recent] records against the ones before them, as for the three
    records of the scenario. *)
Theorem partition_at_zero_keeps_everything_detailed (memory : list Memory.t) :
  recent_memory memory 0 = memory
  /\ older_memory memory 0 = []
  /\ recent_memory Scenario.memory 0 = Scenario.memory
  /\ older_memory Scenario.memory 0 = []
  /\ Spec.detailed Scenario.memory 0 = []
  /\ Spec.summarized Scenario.memory 0 = Scenario.memory
  /\ older_memory Scenario.memory 1 = [Scenario.record1; Scenario.record2]
  /\ recent_memory Scenario.memory 1 = [Scenario.record3]
  /\ (forall r : Z, 0 < r ->
        recent_memory memory r = Spec.detailed memory (Z.to_nat r)
        /\ older_memory memory r = Spec.summarized memory (Z.to_nat r)).
Proof.
  repeat split; try reflexivity;
    unfold recent_memory, older_memory; now apply partition_positive.
Qed.

(* ================================================================= *)
(** ** The repository accessor *)

Lemma path_exists_makedirs (fs : filesystem) (p : string) :
  path_exists (makedirs fs p) p = true.
Proof.
  unfold makedirs. destruct (path_exists fs p) eqn:E; [exact E |].
  unfold path_exists. simpl. now rewrite String.eqb_refl.
Qed.

Lemma makedirs_existing (fs : filesystem) (p : string) :
  path_exists fs p = true -> makedirs fs p = fs.
Proof. intros H. unfold makedirs. now rewrite H. Qed.

Lemma path_exists_cons (fs : filesystem) (p q : string) :
  path_exists fs p = true -> path_exists (q :: fs) p = true.
Proof. intros H. unfold path_exists in *. simpl. rewrite H. apply orb_true_r. Qed.

(** A remote location is cloned into its cache entry when the entry does not
    exist, and the existing entry is opened as it is otherwise. *)
Lemma get_repo_remote (tmp : string) (fs : filesystem) (url : string) :
  startswith url "http" = true ->
  get_repo tmp fs url
  = let temp_dir := path_join tmp "repo_cache" in
    let local_path := local_path_of temp_dir url in
    if path_exists (makedirs fs temp_dir) local_path
    then ([Makedirs temp_dir; OpenRepo local_path], local_path,
          makedirs fs temp_dir)
    else ([Makedirs temp_dir; CloneFrom url local_path; OpenRepo local_path],
          local_path, local_path :: makedirs fs temp_dir).
Proof.
  intros H. unfold get_repo. rewrite H. cbv zeta.
  now destruct (path_exists (makedirs fs (path_join tmp "repo_cache"))
                  (local_path_of (path_join tmp "repo_cache") url)).
Qed.

(** A local path is opened directly. *)
Lemma get_repo_local (tmp : string) (fs : filesystem) (path : string) :
  startswith path "http" = false ->
  get_repo tmp fs path = ([OpenRepo path], path, fs).
Proof. intros H. unfold get_repo. now rewrite H. Qed.

(** After a first call on a remote location, a second call does not clone. *)
Lemma get_repo_reuses_cache (tmp : string) (fs : filesystem) (url : string) :
  startswith url "http" = true ->
  let temp_dir := path_join tmp "repo_cache" in
  let local_path := local_path_of temp_dir url in
  let fs1 := snd (get_repo tmp fs url) in
  get_repo tmp fs1 url
  = ([Makedirs temp_dir; OpenRepo local_path], local_path, fs1).
Proof.
  intros H temp_dir local_path fs1.
  assert (Hdir : path_exists fs1 temp_dir = true).
  { unfold fs1. rewrite (get_repo_remote tmp fs url H). cbv zeta.
    fold temp_dir local_path.
    destruct (path_exists (makedirs fs temp_dir) local_path); simpl.
    - apply path_exists_makedirs.
    - apply path_exists_cons, path_exists_makedirs. }
  assert (Hlocal : path_exists fs1 local_path = true).
  { unfold fs1. rewrite (get_repo_remote tmp fs url H). cbv zeta.
    fold temp_dir local_path.
    destruct (path_exists (makedirs fs temp_dir) local_path) eqn:E; simpl.
    - exact E.
    - unfold path_exists. simpl. now rewrite String.eqb_refl. }
  rewrite (get_repo_remote tmp fs1 url H). cbv zeta. fold temp_dir local_path.
  rewrite (makedirs_existing fs1 temp_dir Hdir). now rewrite Hlocal.
Qed.

(** C7. For the remote location
    ["https://github.com/user/my.github.io.git"] the final path segment is
    ["my.github.io.git"], and the cache entry is ["myhub.io"]: [replace]
    removes every occurrence of [".git"], so the [".git"] inside
    ["my.github.io"] is lost with the trailing one.  The name
    ["https://github.com/user/myhub.io.git"] gets the same entry, so once
    either is cached the other is opened from the first one's clone. *)
Theorem get_repo_cache_name_drops_inner_git :
  startswith Scenario.pages_url "http" = true
  /\ basename Scenario.pages_url = "my.github.io.git"
  /\ get_repo "/tmp" [] Scenario.pages_url
     = ([Makedirs "/tmp/repo_cache";
         CloneFrom Scenario.pages_url "/tmp/repo_cache/myhub.io";
         OpenRepo "/tmp/repo_cache/myhub.io"],
        "/tmp/repo_cache/myhub.io",
        ["/tmp/repo_cache/myhub.io"; "/tmp/repo_cache"])
  /\ "/tmp/repo_cache/myhub.io" <> "/tmp/repo_cache/my.github.io"
  /\ get_repo "/tmp" ["/tmp/repo_cache/myhub.io"; "/tmp/repo_cache"]
              "https://github.com/user/myhub.io.git"
     = ([Makedirs "/tmp/repo_cache"; OpenRepo "/tmp/repo_cache/myhub.io"],
        "/tmp/repo_cache/myhub.io",
        ["/tmp/repo_cache/myhub.io"; "/tmp/repo_cache"]).
Proof.
  repeat split; try reflexivity. discriminate.
Qed.

(* ================================================================= *)
(** ** The narrative requester *)

Lemma user_text_empty (max_recent : Z) :
  user_text [] max_recent
  = "Repository commit memory:" ++ NL ++ NL ++
    "Write a narrated story with one paragraph per commit.".
Proof.
  unfold user_text, older_memory, recent_memory, slice_to, slice_from.
  rewrite firstn_nil, skipn_nil. reflexivity.
Qed.

(** C5. In a repository without any commit the listing call raises, so the
    extraction raises [GitCommandError] where the empty sequence is expected.
    Given the empty sequence and a credential, [generate_story] still calls
    the service once, with a prompt body that holds the preamble and the
    closing instruction and no commit, and returns what the service's answer
    gives. *)
Theorem generate_story_narrates_empty_memory (float : Type)
  (create : client -> chat_request float -> result (list (option string)))
  (temp : float) (max_commits top_files max_recent : Z) (k : ascii)
  (key : string) :
  extract_commit_memory (Git.Repo []) max_commits top_files
  = Raise GitCommandError
  /\ generate_story float (fun _ => Some (String k key)) create [] temp max_recent
     = (resp <- create (OpenAI (String k key))
                       (ChatRequest float "gpt-4o-mini" temp
                          [("system", sys_prompt);
                           ("user",
                            "Repository commit memory:" ++ NL ++ NL ++
                            "Write a narrated story with one paragraph per commit.")]) ;;
        response_text resp,
        [ChatRequest float "gpt-4o-mini" temp
           [("system", sys_prompt);
            ("user",
             "Repository commit memory:" ++ NL ++ NL ++
             "Write a narrated story with one paragraph per commit.")]])
  /\ generate_story Z Scenario.credential Scenario.service [] 0 10
     = (Ok "Once upon a time.",
        [ChatRequest Z "gpt-4o-mini" 0
           [("system", sys_prompt);
            ("user",
             "Repository commit memory:" ++ NL ++ NL ++
             "Write a narrated story with one paragraph per commit.")]]).
Proof.
  split; [reflexivity |].
  split; [| reflexivity].
  unfold generate_story, _ensure_openai. now rewrite user_text_empty.
Qed.

(** C8. Without the credential in the environment, [generate_story] raises
    the configuration error that [_ensure_openai] raises, and has sent no
    request to the service, whatever the memory. *)
Theorem generate_story_requires_credential (float : Type)
  (getenv : string -> option string)
  (create : client -> chat_request float -> result (list (option string)))
  (memory : list Memory.t) (temp : float) (max_recent : Z) :
  getenv "OPENAI_API_KEY" = None ->
  _ensure_openai getenv
  = Raise (RuntimeError "Set OPENAI_API_KEY in your environment.")
  /\ generate_story float getenv create memory temp max_recent
     = (Raise (RuntimeError "Set OPENAI_API_KEY in your environment."), []).
Proof.
  intros H. unfold generate_story, _ensure_openai. rewrite H. now split.
Qed.

Lemma generate_story_requires_credential_witness :
  Scenario.no_credential "OPENAI_API_KEY" = None
  /\ _ensure_openai Scenario.no_credential
     = Raise (RuntimeError "Set OPENAI_API_KEY in your environment.")
  /\ generate_story Z Scenario.no_credential Scenario.service Scenario.memory
                    0 10
     = (Raise (RuntimeError "Set OPENAI_API_KEY in your environment."), []).
Proof.
  split; [reflexivity |].
  apply (generate_story_requires_credential Z Scenario.no_credential
           Scenario.service Scenario.memory 0 10).
  reflexivity.
Defined.

(** An error of the service reaches the caller as it is, after the one
    call; so does a response without a choice or without content. *)
Example generate_story_service_failures :
  generate_story Z Scenario.credential
                 (fun _ _ => Raise (APIError "Connection error."))
                 Scenario.memory 0 10
  = (Raise (APIError "Connection error."),
     [ChatRequest Z "gpt-4o-mini" 0
        [("system", sys_prompt); ("user", user_text Scenario.memory 10)]])
  /\ fst (generate_story Z Scenario.credential (fun _ _ => Ok [])
                         Scenario.memory 0 10)
     = Raise IndexError
  /\ fst (generate_story Z Scenario.credential (fun _ _ => Ok [None])
                         Scenario.memory 0 10)
     = Raise AttributeError.
Proof. repeat split. Qed.

(** An empty credential counts as a missing one. *)
Lemma generate_story_rejects_empty_credential (float : Type)
  (getenv : string -> option string)
  (create : client -> chat_request float -> result (list (option string)))
  (memory : list Memory.t) (temp : float) (max_recent : Z) :
  getenv "OPENAI_API_KEY" = Some "" ->
  generate_story float getenv create memory temp max_recent
  = (Raise (RuntimeError "Set OPENAI_API_KEY in your environment."), []).
Proof.
  intros H. unfold generate_story, _ensure_openai. now rewrite H.
Qed.

(** With a credential, exactly one request is sent, whatever the memory. *)
Lemma generate_story_sends_one_request (float : Type)
  (getenv : string -> option string)
  (create : client -> chat_request float -> result (list (option string)))
  (memory : list Memory.t) (temp : float) (max_recent : Z)
  (k : ascii) (key : string) :
  getenv "OPENAI_API_KEY" = Some (String k key) ->
  snd (generate_story float getenv create memory temp max_recent)
  = [ChatRequest float "gpt-4o-mini" temp
       [("system", sys_prompt); ("user", user_text memory max_recent)]].
Proof.
  intros H. unfold generate_story, _ensure_openai. now rewrite H.
Qed.

(* ================================================================= *)
(** ** More on strings *)

Lemma string_app_assoc (a b c : string) : (a ++ b) ++ c = a ++ b ++ c.
Proof. induction a as [|x a IH]; simpl; [reflexivity | now rewrite IH]. Qed.

Lemma string_app_nil_r (a : string) : a ++ "" = a.
Proof. induction a as [|x a IH]; simpl; [reflexivity | now rewrite IH]. Qed.

(** Two spellings of one string end with the same character. *)
Lemma last_char_unique (s1 s2 : string) (a b : ascii) :
  s1 ++ String a "" = s2 ++ String b "" -> a = b.
Proof.
  revert s2. induction s1 as [|x s1 IH]; intros [|y s2] H; simpl in H.
  - now injection H.
  - injection H as _ H. destruct s2; discriminate.
  - injection H as _ H. destruct s1; discriminate.
  - injection H as _ H. now apply (IH s2).
Qed.

Lemma suffix_app (suf s t : string) : Spec.Suffix suf t -> Spec.Suffix suf (s ++ t).
Proof.
  intros [pre ->]. exists (s ++ pre). now rewrite string_app_assoc.
Qed.

Lemma suffix_last_char (s t1 t2 : string) (a b : ascii) :
  Spec.Suffix (t1 ++ String a "") s -> Spec.Suffix (t2 ++ String b "") s -> a = b.
Proof.
  intros [p1 H1] [p2 H2]. rewrite H1 in H2.
  rewrite <- !string_app_assoc in H2. exact (last_char_unique _ _ _ _ H2).
Qed.

(* ================================================================= *)
(** ** More on the partition *)

(** X1. Whatever integer [max_recent] is, the two slices split the memory:
    the summarized records followed by the detailed ones are the memory
    itself, so the prompt names every commit once, in order. *)
Theorem partition_loses_nothing (memory : list Memory.t) (max_recent : Z) :
  (older_memory memory max_recent ++ recent_memory memory max_recent)%list
  = memory
  /\ (List.length (older_memory memory max_recent)
      + List.length (recent_memory memory max_recent))%nat
     = List.length memory.
Proof.
  unfold older_memory, recent_memory, slice_to, slice_from.
  split; [apply firstn_skipn |].
  rewrite length_firstn, length_skipn. lia.
Qed.

(** X2. When [max_recent] is positive and the memory holds no more than
    [max_recent] records, every record is detailed and the summarizer is
    given nothing. *)
Theorem partition_all_detailed_when_few (memory : list Memory.t)
  (max_recent : Z) :
  0 < max_recent ->
  len memory <= max_recent ->
  recent_memory memory max_recent = memory
  /\ older_memory memory max_recent = []
  /\ summarize_commits (older_memory memory max_recent) 200 = [].
Proof.
  intros Hpos Hfew. unfold len in Hfew.
  assert (Hold : older_memory memory max_recent = []).
  { unfold older_memory, slice_to. rewrite bound_neg by exact Hpos.
    replace (List.length memory - Z.to_nat max_recent)%nat with 0%nat by lia.
    reflexivity. }
  split; [| split; [exact Hold | now rewrite Hold]].
  unfold recent_memory, slice_from. rewrite bound_neg by exact Hpos.
  replace (List.length memory - Z.to_nat max_recent)%nat with 0%nat by lia.
  reflexivity.
Qed.

Lemma partition_all_detailed_when_few_witness :
  0 < 10
  /\ len Scenario.memory <= 10
  /\ recent_memory Scenario.memory 10 = Scenario.memory
  /\ older_memory Scenario.memory 10 = []
  /\ summarize_commits (older_memory Scenario.memory 10) 200 = [].
Proof.
  split; [reflexivity |].
  split; [discriminate |].
  apply (partition_all_detailed_when_few Scenario.memory 10);
    [reflexivity | discriminate].
Defined.

(* ================================================================= *)
(** ** More on the summarizer *)

(** The rendering of a record ends with a full stop. *)
Lemma commit_text_full_stop (c : Memory.t) : Spec.Suffix "." (commit_text c).
Proof.
  unfold commit_text. repeat apply suffix_app. now exists "".
Qed.

(** X3. For a bound [L >= 0] a summary has at most [L + 6] characters, and
    it ends with the marker " [...]" exactly when the record's rendering has
    more than [L] characters: a reader can tell a cut summary from a whole
    one. *)
Theorem summarize_one_marks_truncation (L : Z) (c : Memory.t) :
  0 <= L ->
  len_str (summarize_one L c) <= L + 6
  /\ (endswith (summarize_one L c) " [...]" = true
      <-> L < len_str (commit_text c)).
Proof.
  intros HL. unfold summarize_one, len_str, str_slice_to, TRUNCATION_MARKER.
  rewrite bound_nonneg by exact HL.
  destruct (Z.gtb_spec (Z.of_nat (String.length (commit_text c))) L) as [Hgt | Hle].
  - split.
    + rewrite string_length_app, take_length. simpl String.length. lia.
    + split; [intros _; lia | intros _].
      apply endswith_iff. now eexists.
  - split; [lia |].
    split; [| lia]. intros H. exfalso. apply endswith_iff in H.
    pose proof (commit_text_full_stop c) as Hdot.
    assert (E : "]"%char = "."%char)
      by exact (suffix_last_char (commit_text c) " [..." "" _ _ H Hdot).
    discriminate E.
Qed.

Lemma summarize_one_marks_truncation_witness :
  0 <= 40
  /\ len_str (summarize_one 40 Scenario.record1) <= 40 + 6
  /\ (endswith (summarize_one 40 Scenario.record1) " [...]" = true
      <-> 40 < len_str (commit_text Scenario.record1)).
Proof.
  split; [discriminate |].
  apply (summarize_one_marks_truncation 40 Scenario.record1). discriminate.
Defined.

(* ================================================================= *)
(** ** What stripping leaves *)

Lemma rstrip_cons (c : ascii) (t : string) :
  rstrip (String c t)
  = match rstrip t with
    | "" => if is_space c then "" else String c ""
    | String d u => String c (String d u)
    end.
Proof. reflexivity. Qed.

Lemma rstrip_idempotent (s : string) : rstrip (rstrip s) = rstrip s.
Proof.
  induction s as [|c s IH]; [reflexivity |].
  rewrite rstrip_cons. destruct (rstrip s) as [|d u] eqn:E.
  - destruct (is_space c) eqn:Hc; [reflexivity |].
    rewrite rstrip_cons. simpl. now rewrite Hc.
  - rewrite rstrip_cons, IH. reflexivity.
Qed.

Lemma rstrip_ends_visible (s : string) :
  rstrip s = ""
  \/ exists t c, rstrip s = t ++ String c "" /\ is_space c = false.
Proof.
  induction s as [|c s IH]; [now left |].
  rewrite rstrip_cons. destruct (rstrip s) as [|d u] eqn:E.
  - destruct (is_space c) eqn:Hc; [now left |].
    right. now exists "", c.
  - right. destruct IH as [IH | [t [e [Ht He]]]]; [discriminate |].
    exists (String c t), e. split; [| exact He]. simpl. now rewrite Ht.
Qed.

Lemma strip_trimmed (s : string) : Shape.Trimmed (strip s).
Proof.
  destruct (Spec.whitespace_only s) eqn:E.
  - left. now apply strip_blank_iff.
  - right. destruct (strip_visible s E) as [c [t [Hs Hc]]]. split.
    + now exists c, t.
    + unfold strip in *. destruct (rstrip_ends_visible (lstrip s)) as [H | H].
      * rewrite H in Hs. discriminate.
      * exact H.
Qed.

Lemma strip_idempotent (s : string) : strip (strip s) = strip s.
Proof.
  destruct (Spec.whitespace_only s) eqn:E.
  - apply strip_blank_iff in E. now rewrite E.
  - destruct (strip_visible s E) as [c [t [Hs Hc]]].
    unfold strip at 1. rewrite Hs. cbn [lstrip]. rewrite Hc.
    rewrite <- Hs. unfold strip. apply rstrip_idempotent.
Qed.

(** What [rstrip] and [lstrip] remove is white space at one end. *)
Lemma rstrip_margin (s : string) :
  exists w, s = rstrip s ++ w /\ Spec.whitespace_only w = true.
Proof.
  induction s as [|c s [w [Hs Hw]]]; [now exists "" |].
  rewrite rstrip_cons. destruct (rstrip s) as [|d u] eqn:E.
  - simpl in Hs. subst w. destruct (is_space c) eqn:Hc.
    + exists (String c s). split; [reflexivity |]. simpl. now rewrite Hc, Hw.
    + exists s. now split.
  - exists w. split; [| exact Hw]. simpl. f_equal. exact Hs.
Qed.

Lemma lstrip_margin (s : string) :
  exists w, s = w ++ lstrip s /\ Spec.whitespace_only w = true.
Proof.
  induction s as [|c s [w [Hs Hw]]]; [now exists "" |].
  cbn [lstrip]. destruct (is_space c) eqn:Hc.
  - exists (String c w). split; [simpl; now rewrite <- Hs |].
    simpl. now rewrite Hc, Hw.
  - now exists "".
Qed.

Lemma strip_margins (s : string) :
  exists w1 w2,
    s = w1 ++ strip s ++ w2
    /\ Spec.whitespace_only w1 = true /\ Spec.whitespace_only w2 = true.
Proof.
  destruct (lstrip_margin s) as [w1 [H1 Hw1]].
  destruct (rstrip_margin (lstrip s)) as [w2 [H2 Hw2]].
  exists w1, w2. unfold strip. split; [| now split].
  now rewrite <- H2.
Qed.

(* ================================================================= *)
(** ** The first line *)

Lemma one_line_nil : Shape.OneLine "".
Proof. intros c []. Qed.

Lemma one_line_cons (c : ascii) (s : string) :
  is_linebreak c = false -> Shape.OneLine s -> Shape.OneLine (String c s).
Proof.
  intros Hc Hs d [<- | Hd]; [exact Hc | now apply Hs].
Qed.

(** The first line delivered is what was read so far followed by the
    characters up to the first line boundary, or up to the end when there is
    no boundary. *)
Lemma splitlines_head (cur s h : string) (rest : list string) :
  splitlines_from cur false s = h :: rest ->
  exists p,
    h = cur ++ p /\ Shape.OneLine p
    /\ (s = p \/ exists b tail, s = p ++ String b tail /\ is_linebreak b = true).
Proof.
  revert cur. induction s as [|c s IH]; intros cur H; cbn [splitlines_from] in H.
  - destruct (String.eqb cur ""); [discriminate |].
    injection H as <- _. exists "". rewrite string_app_nil_r.
    repeat split; [apply one_line_nil | now left].
  - cbn [andb] in H. destruct (is_linebreak c) eqn:Hc.
    + injection H as <- _. exists "". rewrite string_app_nil_r.
      repeat split; [apply one_line_nil |]. right. now exists c, s.
    + destruct (IH _ H) as [p [Hh [Hone Hend]]].
      exists (String c p). rewrite string_app_assoc in Hh.
      repeat split; [exact Hh | now apply one_line_cons |].
      destruct Hend as [-> | [b [tail [-> Hb]]]]; [now left |].
      right. now exists b, tail.
Qed.

Lemma headline_shape (s h : string) :
  Shape.Trimmed s ->
  first (splitlines s) = Ok h ->
  s <> "" /\ h <> "" /\ Shape.OneLine h
  /\ (s = h \/ exists b tail, s = h ++ String b tail /\ is_linebreak b = true).
Proof.
  intros Htrim Hfirst. unfold splitlines in Hfirst.
  destruct (splitlines_from "" false s) as [|h' rest] eqn:E; [discriminate |].
  injection Hfirst as ->.
  destruct (splitlines_head _ _ _ _ E) as [p [Hh [Hone Hend]]].
  simpl in Hh. subst p.
  destruct Htrim as [-> | [[c [t [-> Hc]]] _]]; [discriminate |].
  split; [discriminate |]. split; [| now split].
  cbn [splitlines_from andb] in E.
  destruct (is_linebreak c) eqn:Hl.
  - apply linebreak_is_space in Hl. congruence.
  - destruct (splitlines_head _ _ _ _ E) as [p [-> _]]. discriminate.
Qed.

Lemma Forall2_right {A B} (R : A -> B -> Prop) (P : B -> Prop) (l : list A)
  (l' : list B) :
  (forall x y, R x y -> P y) -> Forall2 R l l' -> Forall P l'.
Proof.
  intros HRP H. induction H; constructor; eauto.
Qed.

(** X4. Record by record, oldest commit first, an extraction stores as
    message the commit's message stripped of the white space at both ends,
    which is not empty, and as summary the whole first line of it: a
    non-empty string without line boundary that is the message itself or is
    followed in the message by a line boundary. *)
Theorem extracted_message_and_headline (repo : Git.repo)
  (max_commits top_files : Z) (memory : list Memory.t) :
  extract_commit_memory repo max_commits top_files = Ok memory ->
  Forall2
    (fun c r =>
       Memory.message r = strip (Git.message c)
       /\ Shape.Trimmed (Memory.message r)
       /\ Memory.message r <> ""
       /\ Memory.summary r <> ""
       /\ Shape.OneLine (Memory.summary r)
       /\ (Memory.message r = Memory.summary r
           \/ exists b tail,
               Memory.message r = Memory.summary r ++ String b tail
               /\ is_linebreak b = true))
    (rev (Git.iter_commits repo max_commits)) memory.
Proof.
  intros H. apply extract_commit_memory_ok in H. destruct H as [_ H].
  apply extract_entries in H. destruct H as [_ [Hall _]].
  eapply Forall2_impl; [| exact Hall].
  intros c r [idx Hr].
  destruct (memory_entry_ok _ _ _ _ Hr) as [day [headline [_ [Hfirst ->]]]].
  cbn [Memory.message Memory.summary].
  destruct (headline_shape _ _ (strip_trimmed (Git.message c)) Hfirst)
    as [Hne [Hh [Hone Hend]]].
  repeat split; trivial. apply strip_trimmed.
Qed.

Lemma extracted_message_and_headline_witness :
  extract_commit_memory Scenario.repo 50 5 = Ok Scenario.memory
  /\ Forall2
       (fun c r =>
          Memory.message r = strip (Git.message c)
          /\ Shape.Trimmed (Memory.message r)
          /\ Memory.message r <> ""
          /\ Memory.summary r <> ""
          /\ Shape.OneLine (Memory.summary r)
          /\ (Memory.message r = Memory.summary r
              \/ exists b tail,
                  Memory.message r = Memory.summary r ++ String b tail
                  /\ is_linebreak b = true))
       (rev (Git.iter_commits Scenario.repo 50)) Scenario.memory.
Proof.
  split; [reflexivity |].
  apply (extracted_message_and_headline Scenario.repo 50 5). reflexivity.
Defined.

(* ================================================================= *)
(** ** Keywords and margins *)

Lemma is_space_lower (c : ascii) : is_space (lower_char c) = is_space c.
Proof.
  destruct c as [[] [] [] [] [] [] [] []]; reflexivity.
Qed.

Lemma lower_app (a b : string) : lower (a ++ b) = lower a ++ lower b.
Proof. induction a as [|c a IH]; simpl; [reflexivity | now rewrite IH]. Qed.

Lemma whitespace_only_lower (w : string) :
  Spec.whitespace_only (lower w) = Spec.whitespace_only w.
Proof.
  induction w as [|c w IH]; simpl; [reflexivity |].
  now rewrite is_space_lower, IH.
Qed.

Lemma whitespace_only_inside (x y : string) (b : ascii) :
  Spec.whitespace_only (x ++ String b y) = true -> is_space b = true.
Proof.
  induction x as [|c x IH]; simpl; rewrite andb_true_iff; intros [H1 H2];
    [exact H1 | now apply IH].
Qed.

Lemma solid_starts (k : string) :
  Shape.solid k = true -> exists a k', k = String a k' /\ is_space a = false.
Proof.
  destruct k as [|a k']; simpl; [discriminate |].
  rewrite andb_true_iff, negb_true_iff. intros [Ha _]. now exists a, k'.
Qed.

Lemma ends_visible_last (k : string) :
  Shape.ends_visible k = true ->
  exists k0 b, k = k0 ++ String b "" /\ is_space b = false.
Proof.
  induction k as [|c k IH]; [discriminate |].
  destruct k as [|d k'].
  - simpl. rewrite negb_true_iff. intros Hc. now exists "", c.
  - intros H. change (Shape.ends_visible (String d k') = true) in H.
    destruct (IH H) as [k0 [b [Hk Hb]]].
    exists (String c k0), b. split; [simpl; now rewrite Hk | exact Hb].
Qed.

Lemma solid_ends (k : string) :
  Shape.solid k = true ->
  exists k0 b, k = k0 ++ String b "" /\ is_space b = false.
Proof.
  destruct k as [|a k']; [discriminate |].
  unfold Shape.solid. rewrite andb_true_iff. intros [_ H].
  now apply ends_visible_last.
Qed.

(** A visible character of [r ++ w] lies in [r] when [w] is white space. *)
Lemma visible_before_margin (r w x y : string) (b : ascii) :
  Spec.whitespace_only w = true -> is_space b = false ->
  r ++ w = x ++ String b y -> exists z, r = x ++ String b z.
Proof.
  intros Hw Hb. revert x. induction r as [|c r IH]; intros x H.
  - simpl in H. rewrite H in Hw. apply whitespace_only_inside in Hw. congruence.
  - destruct x as [|c' x]; simpl in H; injection H as -> H.
    + now exists r.
    + destruct (IH x H) as [z ->]. now exists z.
Qed.

Lemma substring_left_margin (k w t : string) :
  Shape.solid k = true -> Spec.whitespace_only w = true ->
  Spec.Substring k (w ++ t) -> Spec.Substring k t.
Proof.
  intros Hk. destruct (solid_starts k Hk) as [a [k' [-> Ha]]].
  induction w as [|c w IH]; simpl; [trivial |].
  rewrite andb_true_iff. intros [Hc Hw] [pre [post H]].
  destruct pre as [|c' pre]; simpl in H; injection H as -> H.
  - congruence.
  - apply IH; [exact Hw | now exists pre, post].
Qed.

Lemma substring_right_margin (k w t : string) :
  Shape.solid k = true -> Spec.whitespace_only w = true ->
  Spec.Substring k (t ++ w) -> Spec.Substring k t.
Proof.
  intros Hk Hw [pre [post H]].
  destruct (solid_ends k Hk) as [k0 [b [-> Hb]]].
  rewrite string_app_assoc in H. rewrite <- string_app_assoc in H.
  destruct (visible_before_margin t w (pre ++ k0) _ b Hw Hb H) as [z ->].
  exists pre, z. now rewrite !string_app_assoc.
Qed.

Lemma substring_margins (k w1 core w2 : string) :
  Shape.solid k = true ->
  Spec.whitespace_only w1 = true -> Spec.whitespace_only w2 = true ->
  Spec.Substring k (w1 ++ core ++ w2) <-> Spec.Substring k core.
Proof.
  intros Hk H1 H2. split.
  - intros H. apply (substring_right_margin k w2 core Hk H2).
    now apply (substring_left_margin k w1 _ Hk H1).
  - intros [pre [post ->]]. exists (w1 ++ pre), (post ++ w2).
    now rewrite !string_app_assoc.
Qed.

Lemma contains_strip (k message : string) :
  Shape.solid k = true ->
  contains k (lower (strip message)) = contains k (lower message).
Proof.
  intros Hk. apply eq_iff_eq_true. rewrite !contains_iff.
  destruct (strip_margins message) as [w1 [w2 [Hm [H1 H2]]]].
  rewrite Hm at 2. rewrite !lower_app. symmetry.
  apply substring_margins; trivial; now rewrite whitespace_only_lower.
Qed.

Lemma any_in_strip (ks : list string) (message : string) :
  forallb Shape.solid ks = true ->
  any_in ks (lower (strip message)) = any_in ks (lower message).
Proof.
  unfold any_in. induction ks as [|k ks IH]; simpl; [reflexivity |].
  rewrite andb_true_iff. intros [Hk Hks].
  now rewrite (contains_strip k message Hk), (IH Hks).
Qed.

Lemma classify_importance_strip (message : string) :
  classify_importance (strip message) = classify_importance message.
Proof.
  unfold classify_importance.
  rewrite !any_in_strip by reflexivity.
  now rewrite contains_strip by reflexivity.
Qed.

Lemma classify_importance_labels (message : string) :
  In (classify_importance message)
     ["Setup"; "Feature"; "Fix"; "Refactor"; "Test"; "Other"].
Proof.
  unfold classify_importance.
  repeat match goal with
         | |- context [if ?b then _ else _] => destruct b
         end; simpl; tauto.
Qed.

(** X5. The classifier ignores the case of the message and the white space
    around it: two messages that are equal once stripped and lower-cased get
    the same label. *)
Theorem classify_importance_ignores_case_and_margins (m1 m2 : string) :
  classify_importance (strip m1) = classify_importance m1
  /\ classify_importance (lower m1) = classify_importance m1
  /\ (lower (strip m1) = lower (strip m2) ->
      classify_importance m1 = classify_importance m2).
Proof.
  split; [apply classify_importance_strip |].
  split.
  - unfold classify_importance. now rewrite lower_idempotent.
  - intros H. rewrite <- (classify_importance_strip m1),
      <- (classify_importance_strip m2).
    unfold classify_importance. now rewrite H.
Qed.

(** X6. In every record of an extraction the type is the label the
    classifier gives to the record's own stored message, and it is one of
    the six labels: the type can be recomputed from the record. *)
Theorem extracted_type_matches_message (repo : Git.repo)
  (max_commits top_files : Z) (memory : list Memory.t) :
  extract_commit_memory repo max_commits top_files = Ok memory ->
  Forall
    (fun r =>
       classify_importance (Memory.message r) = Memory.type r
       /\ In (Memory.type r)
             ["Setup"; "Feature"; "Fix"; "Refactor"; "Test"; "Other"])
    memory.
Proof.
  intros H. apply extract_commit_memory_ok in H. destruct H as [_ H].
  apply extract_entries in H. destruct H as [_ [Hall _]].
  eapply Forall2_right; [| exact Hall].
  intros c r [idx Hr].
  destruct (memory_entry_ok _ _ _ _ Hr) as [day [headline [_ [_ ->]]]].
  cbn [Memory.message Memory.type].
  split; [apply classify_importance_strip | apply classify_importance_labels].
Qed.

Lemma extracted_type_matches_message_witness :
  extract_commit_memory Scenario.repo 50 5 = Ok Scenario.memory
  /\ Forall
       (fun r =>
          classify_importance (Memory.message r) = Memory.type r
          /\ In (Memory.type r)
                ["Setup"; "Feature"; "Fix"; "Refactor"; "Test"; "Other"])
       Scenario.memory.
Proof.
  split; [reflexivity |].
  apply (extracted_type_matches_message Scenario.repo 50 5). reflexivity.
Defined.

(* ================================================================= *)
(** ** Suffixes exclude one another *)

Lemma last_char_app (s t : string) :
  t <> "" -> Shape.last_char (s ++ t) = Shape.last_char t.
Proof.
  intros Ht. induction s as [|c s IH]; [reflexivity |].
  simpl. destruct (s ++ t) eqn:E; [| exact IH].
  destruct s; simpl in E; [contradiction | discriminate].
Qed.

Lemma last_char_suffix (suf s : string) :
  Spec.Suffix suf s -> suf <> "" -> Shape.last_char s = Shape.last_char suf.
Proof. intros [pre ->] H. now apply last_char_app. Qed.

(** Two tests of the inferencer on suffixes that end differently cannot
    both succeed. *)
Ltac suffix_clash :=
  match goal with
  | H1 : endswith ?s ?x = false, H2 : Spec.Suffix ?x ?s |- _ =>
      apply endswith_iff in H2; congruence
  | H1 : endswith ?s _ = true, H2 : Spec.Suffix _ ?s |- _ =>
      apply endswith_iff in H1;
      apply last_char_suffix in H1; [| discriminate];
      apply last_char_suffix in H2; [| discriminate];
      rewrite H1 in H2; discriminate H2
  end.

(** X7. The suffix alone decides the purpose: a file name whose lower-cased
    form ends with a suffix of a purpose gets that purpose's label, whatever
    else the name holds, because no name ends with the suffixes of two
    purposes; the order of the tests never matters. *)
Theorem infer_file_purpose_by_suffix (filename : string) (p : Spec.purpose) :
  Spec.EndsWith filename p ->
  infer_file_purpose filename = Spec.purpose_label p.
Proof.
  intros [suf [Hin Hsuf]]. unfold infer_file_purpose, endswith_any.
  cbn [existsb]. rewrite orb_false_r.
  destruct (endswith (lower filename) ".py") eqn:E1;
    destruct (endswith (lower filename) ".md") eqn:E2;
    destruct (endswith (lower filename) ".gitignore") eqn:E3;
    destruct (endswith (lower filename) ".json") eqn:E4;
    destruct (endswith (lower filename) ".yml") eqn:E5;
    destruct (endswith (lower filename) ".yaml") eqn:E6;
    cbn [orb];
    destruct p; simpl in Hin;
    repeat (destruct Hin as [<- | Hin]); try contradiction;
    try reflexivity; exfalso; suffix_clash.
Qed.

Lemma infer_file_purpose_by_suffix_witness :
  Spec.EndsWith "docs/Setup.PY.MD" Spec.Documentation
  /\ infer_file_purpose "docs/Setup.PY.MD"
     = Spec.purpose_label Spec.Documentation.
Proof.
  assert (H : Spec.EndsWith "docs/Setup.PY.MD" Spec.Documentation).
  { exists ".md". split; [now left | now exists "docs/setup.py"]. }
  split; [exact H |].
  exact (infer_file_purpose_by_suffix "docs/Setup.PY.MD" Spec.Documentation H).
Defined.

(* ================================================================= *)
(** ** The size of the prompt *)

Lemma fold_append_length (xs : list string) (acc : string) :
  String.length (fold_left (fun a x => a ++ x) xs acc)
  = (String.length acc + list_sum (map String.length xs))%nat.
Proof.
  revert acc. induction xs as [|x xs IH]; intros acc; simpl; [lia |].
  rewrite IH, string_length_app. lia.
Qed.

Lemma concat_lines_length (xs : list string) :
  String.length (concat_lines xs) = list_sum (map String.length xs).
Proof. unfold concat_lines. now rewrite fold_append_length. Qed.

Lemma summarize_one_length (L : Z) (c : Memory.t) :
  0 <= L -> (String.length (summarize_one L c) <= Z.to_nat L + 6)%nat.
Proof.
  intros HL. unfold summarize_one, len_str, str_slice_to, TRUNCATION_MARKER.
  rewrite bound_nonneg by exact HL.
  destruct (Z.gtb_spec (Z.of_nat (String.length (commit_text c))) L).
  - rewrite string_length_app, take_length. simpl String.length. lia.
  - lia.
Qed.

Lemma list_sum_bounded {A} (f : A -> nat) (k : nat) (l : list A) :
  (forall x, f x <= k)%nat -> (list_sum (map f l) <= k * List.length l)%nat.
Proof.
  intros H. induction l as [|x l IH]; simpl; [lia |].
  specialize (H x). lia.
Qed.

(** X8. The prompt body has 80 fixed characters, one line per summarized
    record and one line per detailed record; a summarized record costs at
    most 207 characters, whatever the commit holds, while a detailed one
    costs the whole rendering. *)
Theorem user_text_length (memory : list Memory.t) (max_recent : Z) :
  String.length (user_text memory max_recent)
  = (80
     + list_sum (map (fun c => S (String.length (summarize_one 200 c)))
                     (older_memory memory max_recent))
     + list_sum (map (fun c => S (String.length (commit_text c)))
                     (recent_memory memory max_recent)))%nat
  /\ (String.length (user_text memory max_recent)
      <= 80 + 207 * List.length (older_memory memory max_recent)
         + list_sum (map (fun c => S (String.length (commit_text c)))
                         (recent_memory memory max_recent)))%nat.
Proof.
  assert (Hlen : String.length (user_text memory max_recent)
    = (80
       + list_sum (map (fun c => S (String.length (summarize_one 200 c)))
                       (older_memory memory max_recent))
       + list_sum (map (fun c => S (String.length (commit_text c)))
                       (recent_memory memory max_recent)))%nat).
  { unfold user_text, summarize_commits.
    rewrite !string_length_app, !concat_lines_length, !map_map.
    rewrite (map_ext (fun x => String.length (summarize_one 200 x ++ NL))
                     (fun c => S (String.length (summarize_one 200 c)))).
    2:{ intros c. rewrite string_length_app. simpl. lia. }
    rewrite (map_ext (fun x => String.length (commit_text x ++ NL))
                     (fun c => S (String.length (commit_text c)))).
    2:{ intros c. rewrite string_length_app. simpl. lia. }
    simpl String.length. lia. }
  split; [exact Hlen |].
  rewrite Hlen.
  pose proof (list_sum_bounded
                (fun c => S (String.length (summarize_one 200 c))) 207
                (older_memory memory max_recent)) as Hb.
  assert (Hone : forall c, (S (String.length (summarize_one 200 c)) <= 207)%nat).
  { intros c. pose proof (summarize_one_length 200 c). lia. }
  specialize (Hb Hone). lia.
Qed.

(* ================================================================= *)
(** ** Where the cache entry lies *)

Lemma chars_app (a b : string) :
  list_ascii_of_string (a ++ b)
  = (list_ascii_of_string a ++ list_ascii_of_string b)%list.
Proof. induction a as [|c a IH]; simpl; [reflexivity | now rewrite IH]. Qed.

Lemma no_slash_nil : Shape.NoSlash "".
Proof. intros c []. Qed.

Lemma no_slash_snoc (s : string) (c : ascii) :
  Shape.NoSlash s -> c <> SEP -> Shape.NoSlash (s ++ String c "").
Proof.
  intros Hs Hc d Hd. rewrite chars_app in Hd. apply in_app_or in Hd.
  destruct Hd as [Hd | [<- | []]]; [now apply Hs | exact Hc].
Qed.

Lemma basename_from_no_slash (cur p : string) :
  Shape.NoSlash cur -> Shape.NoSlash (basename_from cur p).
Proof.
  revert cur. induction p as [|c p IH]; intros cur Hcur; simpl; [exact Hcur |].
  destruct (Ascii.eqb_spec c SEP) as [-> | Hc].
  - apply IH, no_slash_nil.
  - apply IH. now apply no_slash_snoc.
Qed.

(** Removing occurrences brings in no character. *)
Lemma replace_from_chars (skip : nat) (old s : string) (c : ascii) :
  In c (list_ascii_of_string (replace_from skip old "" s)) ->
  In c (list_ascii_of_string s).
Proof.
  revert skip. induction s as [|d s IH]; intros skip H; [exact H |].
  cbn [replace_from] in H. destruct skip as [|k].
  - destruct (startswith (String d s) old).
    + right. exact (IH _ H).
    + destruct H as [<- | H]; [now left | right; exact (IH _ H)].
  - right. exact (IH _ H).
Qed.

Lemma cache_dir_shape (tmp : string) :
  path_join tmp "repo_cache" <> ""
  /\ endswith (path_join tmp "repo_cache") "/" = false.
Proof.
  assert (Hlast : Shape.last_char (path_join tmp "repo_cache") = Some "e"%char).
  { unfold path_join.
    change (startswith "repo_cache" "/") with false. cbv iota.
    destruct (String.eqb tmp "" || endswith tmp "/")%bool;
      rewrite last_char_app by discriminate; reflexivity. }
  split.
  - intros E. rewrite E in Hlast. discriminate.
  - destruct (endswith (path_join tmp "repo_cache") "/") eqn:E; [| reflexivity].
    apply endswith_iff, last_char_suffix in E; [| discriminate].
    rewrite Hlast in E. discriminate.
Qed.

(** X11. Whatever the remote location, the path of its cache entry reads:
    the cache directory, one slash, and a name that holds no slash and only
    characters of the location's final path segment.  The name can be empty,
    "." or "..", as for a location that ends with a slash or with "/...git",
    so the path need not denote an entry of the cache directory. *)
Theorem cache_path_shape (tmp url : string) :
  (exists name,
      name = replace (basename url) ".git" ""
      /\ local_path_of (path_join tmp "repo_cache") url
         = path_join tmp "repo_cache" ++ "/" ++ name
      /\ Shape.NoSlash name
      /\ forall c, In c (list_ascii_of_string name) ->
                   In c (list_ascii_of_string (basename url)))
  /\ local_path_of (path_join "/tmp" "repo_cache") "https://host/user/repo/"
     = "/tmp/repo_cache/"
  /\ local_path_of (path_join "/tmp" "repo_cache") "https://host/...git"
     = "/tmp/repo_cache/..".
Proof.
  split; [| split; reflexivity].
  exists (replace (basename url) ".git" "").
  assert (Hchars : forall c,
             In c (list_ascii_of_string (replace (basename url) ".git" "")) ->
             In c (list_ascii_of_string (basename url))).
  { intros c. unfold replace. apply replace_from_chars. }
  assert (Hname : Shape.NoSlash (replace (basename url) ".git" "")).
  { intros c Hc. apply Hchars in Hc. revert c Hc.
    apply basename_from_no_slash, no_slash_nil. }
  split; [reflexivity |].
  split; [| split; [exact Hname | exact Hchars]].
  unfold local_path_of.
  destruct (cache_dir_shape tmp) as [Hne Hend].
  unfold path_join at 1. rewrite Hend.
  destruct (String.eqb_spec (path_join tmp "repo_cache") ""); [contradiction |].
  destruct (replace (basename url) ".git" "") as [|c t]; [reflexivity |].
  cbn [startswith]. destruct (Ascii.eqb_spec "/"%char c) as [<- | _].
  - exfalso. apply (Hname "/"%char); [now left | reflexivity].
  - reflexivity.
Qed.

(* ================================================================= *)
(** ** The page *)

(** X12. The message shown in a commit's expander title never has more than
    80 characters: a message of at most 80 characters is shown whole, a
    longer one as its first 77 characters followed by three dots. *)
Theorem truncated_msg_bounded (message : string) :
  (String.length (App.truncated_msg message) <= 80)%nat
  /\ ((String.length message <= 80)%nat -> App.truncated_msg message = message)
  /\ ((80 < String.length message)%nat ->
      App.truncated_msg message = substring 0 77 message ++ "..."
      /\ String.length (App.truncated_msg message) = 80%nat).
Proof.
  unfold App.truncated_msg, len_str, str_slice_to.
  rewrite bound_nonneg by lia.
  destruct (Z.leb_spec (Z.of_nat (String.length message)) 80) as [Hle | Hgt].
  - repeat split; [lia | lia | lia].
  - replace (Nat.min (Z.to_nat 77) (String.length message)) with 77%nat by lia.
    split; [rewrite string_length_app, take_length; simpl String.length; lia |].
    split; [lia |]. intros _.
    split; [now rewrite take_substring |].
    rewrite string_length_app, take_length. simpl String.length. lia.
Qed.

Lemma infer_file_purpose_has_color (filename : string) :
  App.find App.file_color_map (infer_file_purpose filename) <> None.
Proof.
  unfold infer_file_purpose.
  repeat match goal with
         | |- context [if ?b then _ else _] => destruct b
         end; discriminate.
Qed.

Lemma important_files_purposes (c : Git.commit) (top_files : Z) :
  Forall (fun f => KeyFile.purpose f = infer_file_purpose (KeyFile.name f))
         (important_files c top_files).
Proof.
  unfold important_files. apply Forall_forall. intros f Hf.
  apply in_map_iff in Hf. destruct Hf as [[name s] [<- _]]. reflexivity.
Qed.

(** X13. Every file entry of every extracted record carries the purpose the
    inferencer gives to its own name, and the page's colour map has a
    colour for it: the fallback colour of the lookup is never needed. *)
Theorem extracted_files_have_colors (repo : Git.repo)
  (max_commits top_files : Z) (memory : list Memory.t) :
  extract_commit_memory repo max_commits top_files = Ok memory ->
  Forall
    (fun r =>
       Forall
         (fun f =>
            KeyFile.purpose f = infer_file_purpose (KeyFile.name f)
            /\ exists col,
                App.find App.file_color_map (KeyFile.purpose f) = Some col
                /\ App.color f = col)
         (Memory.key_files r))
    memory.
Proof.
  intros H. apply extract_commit_memory_ok in H. destruct H as [_ H].
  apply extract_entries in H. destruct H as [_ [Hall _]].
  eapply Forall2_right; [| exact Hall].
  intros c r [idx Hr].
  destruct (memory_entry_ok _ _ _ _ Hr) as [day [headline [_ [_ ->]]]].
  cbn [Memory.key_files].
  eapply Forall_impl; [| apply important_files_purposes].
  intros f Hf. split; [exact Hf |].
  unfold App.color, App.get. rewrite Hf.
  pose proof (infer_file_purpose_has_color (KeyFile.name f)) as Hcol.
  destruct (App.find App.file_color_map (infer_file_purpose (KeyFile.name f)))
    as [col|]; [now exists col | contradiction].
Qed.

Lemma extracted_files_have_colors_witness :
  extract_commit_memory Scenario.wide_repo 50 2
  = Ok [Scenario.record1; Scenario.wide_record]
  /\ Forall
       (fun r =>
          Forall
            (fun f =>
               KeyFile.purpose f = infer_file_purpose (KeyFile.name f)
               /\ exists col,
                   App.find App.file_color_map (KeyFile.purpose f) = Some col
                   /\ App.color f = col)
            (Memory.key_files r))
       [Scenario.record1; Scenario.wide_record].
Proof.
  split; [reflexivity |].
  apply (extracted_files_have_colors Scenario.wide_repo 50 2). reflexivity.
Defined.

(* ================================================================= *)
(** ** More on the extractor *)

Lemma Forall2_left {A B} (R : A -> B -> Prop) (P : A -> Prop) (l : list A)
  (l' : list B) :
  (forall x y, R x y -> P x) -> Forall2 R l l' -> Forall P l.
Proof.
  intros HRP H. induction H; constructor; eauto.
Qed.

(** X14. Whatever integer [top_files] is, the file entries of a record are
    the entries of a leading part of the commit's [stats.files], in their
    order, so there are never more of them than [files_changed_count]; a
    negative [top_files] counts from the end and drops that many of the
    last files instead of capping the number. *)
Theorem key_files_are_a_leading_part (repo : Git.repo)
  (max_commits top_files : Z) (memory : list Memory.t) :
  extract_commit_memory repo max_commits top_files = Ok memory ->
  Forall2
    (fun c r =>
       (exists n : nat,
           Memory.key_files r
           = map Spec.entry_of (firstn n (Git.stats_files c)))
       /\ len (Memory.key_files r) <= Memory.files_changed_count r
       /\ (top_files < 0 ->
           len (Memory.key_files r)
           = Z.max 0 (Memory.files_changed_count r + top_files)))
    (rev (Git.iter_commits repo max_commits)) memory.
Proof.
  intros H. apply extract_commit_memory_ok in H. destruct H as [_ H].
  apply extract_entries in H. destruct H as [_ [Hall _]].
  eapply Forall2_impl; [| exact Hall].
  intros c r [idx Hr].
  destruct (memory_entry_ok _ _ _ _ Hr) as [day [headline [_ [_ ->]]]].
  cbn [Memory.key_files Memory.files_changed_count].
  assert (E : important_files c top_files
              = map Spec.entry_of
                    (firstn (bound (List.length (Git.stats_files c)) top_files)
                            (Git.stats_files c))).
  { unfold important_files, slice_to. apply map_ext. now intros [f s]. }
  rewrite E. split; [now eexists |].
  unfold len. rewrite length_map, length_firstn.
  split; [lia |].
  intros Hneg. unfold bound. destruct (Z.ltb_spec top_files 0); lia.
Qed.

Lemma key_files_are_a_leading_part_witness :
  extract_commit_memory (Git.Repo [Scenario.wide_commit]) 50 (-1)
  = Ok [Memory.Make 1 "Bob" "2023-11-14" "Refactor config loading" "Refactor"
          "Refactor config loading"
          [KeyFile.Make "a.yml" "Configuration file" 1 1;
           KeyFile.Make "notes.md" "Documentation" 10 2] 111 3 3]
  /\ Forall2
       (fun c r =>
          (exists n : nat,
              Memory.key_files r
              = map Spec.entry_of (firstn n (Git.stats_files c)))
          /\ len (Memory.key_files r) <= Memory.files_changed_count r
          /\ (-1 < 0 ->
              len (Memory.key_files r)
              = Z.max 0 (Memory.files_changed_count r + -1)))
       (rev (Git.iter_commits (Git.Repo [Scenario.wide_commit]) 50))
       [Memory.Make 1 "Bob" "2023-11-14" "Refactor config loading" "Refactor"
          "Refactor config loading"
          [KeyFile.Make "a.yml" "Configuration file" 1 1;
           KeyFile.Make "notes.md" "Documentation" 10 2] 111 3 3].
Proof.
  split; [reflexivity |].
  apply (key_files_are_a_leading_part (Git.Repo [Scenario.wide_commit]) 50 (-1)).
  reflexivity.
Defined.

(** X15. An extraction returns records exactly when the repository has a
    commit and every listed commit has a message with a visible character
    and a commit date the calendar can hold; in a repository without a
    commit, or with one listed commit that fails either test, the whole
    extraction raises, with no partial result. *)
Theorem extract_commit_memory_succeeds_iff (repo : Git.repo)
  (max_commits top_files : Z) :
  (exists memory, extract_commit_memory repo max_commits top_files = Ok memory)
  <-> Git.head_log repo <> []
      /\ Forall (fun c => Spec.whitespace_only (Git.message c) = false
                          /\ exists day,
                              Datetime.utc_date (Git.committed_date c) = Ok day)
                (Git.iter_commits repo max_commits).
Proof.
  split; [| intros [Hhead H]; now apply extract_commit_memory_total].
  intros [memory H]. apply extract_commit_memory_ok in H.
  destruct H as [Hhead H]. split; [exact Hhead |].
  apply extract_entries in H. destruct H as [_ [Hall _]].
  rewrite <- (rev_involutive (Git.iter_commits repo max_commits)).
  apply Forall_rev.
  eapply Forall2_left; [| exact Hall].
  intros c r [idx Hr].
  destruct (memory_entry_ok _ _ _ _ Hr) as [day [headline [Hday [Hfirst _]]]].
  split; [| now exists day].
  destruct (Spec.whitespace_only (Git.message c)) eqn:E; [| reflexivity].
  destruct (headline_blank _ E) as [_ Hraise]. congruence.
Qed.
